(** * SpeechBuckets: a shallow embedding of [speech_buckets.py]

    The program splits a transcript into one text file ("bucket") per
    speaker.  This development embeds

    - the line classifier: [is_speaker_name], [is_speaker_annotated] and
      [parse_transcription_line];
    - the bucket writer: the loop of
      [TranscriptionParser.process_transcription], with the dictionary of
      file handles, the current output file, the files on disk and the
      messages printed;

    and states the properties of the specification over them.

    Conventions of the embedding.

    - A Python [str] is a [list ascii]; the 256 values of [ascii] stand for
      the code points U+0000 to U+00FF, and the character classes below are
      the ones CPython's Unicode database gives to these code points (none
      of them is titlecase, so the titlecase test of [str.isupper] is
      omitted).
    - A Python exception is a value [Raise e] of the type [result]; a run of
      the bucket writer ends in [Done st] or in [Aborted e st], where [st]
      is the state reached when the exception left the function.
    - [None] is the [None] of [option]; the pair returned by
      [parse_transcription_line] is a pair of options.
    - A file object is identified by the path it was opened on; the disk
      maps a path to the bytes written and to whether its file object is
      open. Opening and writing files are taken to succeed.
    - [process_transcription] is embedded from the point where
      [bucket_path] has been computed ([os.path] is not modelled), over the
      list of lines that iterating the input file yields. *)

From Stdlib Require Import Ascii String ZArith.
From stdpp Require Import gmap strings list fin_maps.

Open Scope Z_scope.
Open Scope nat_scope.

(** ** Python strings *)

Abbreviation str := (list ascii).

(** A string literal of the source, as a list of characters. *)
Definition lit (s : string) : str := list_ascii_of_string s.
Arguments lit : simpl never.

Definition code (c : ascii) : nat := nat_of_ascii c.

Definition between (lo hi : nat) (c : ascii) : bool :=
  (lo <=? code c) && (code c <=? hi).

(** Character classes of CPython on U+0000..U+00FF. Whitespace is what
    [str.strip()] removes: TAB..CR, FS..US, SPACE, NEL and NBSP. *)
Definition Py_UNICODE_ISSPACE (c : ascii) : bool :=
  between 9 13 c || between 28 32 c || (code c =? 133) || (code c =? 160).

Definition Py_UNICODE_ISUPPER (c : ascii) : bool :=
  between 65 90 c || between 192 214 c || between 216 222 c.

Definition Py_UNICODE_ISLOWER (c : ascii) : bool :=
  between 97 122 c || (code c =? 170) || (code c =? 181) || (code c =? 186)
  || between 223 246 c || between 248 255 c.

Definition Py_UNICODE_ISALPHA (c : ascii) : bool :=
  between 65 90 c || between 97 122 c
  || (code c =? 170) || (code c =? 181) || (code c =? 186)
  || between 192 214 c || between 216 246 c || between 248 255 c.

(** [str.isalpha()]: every character is alphabetic and there is at least
    one character. *)
Definition isalpha (s : str) : bool :=
  match s with
  | [] => false
  | _ => forallb Py_UNICODE_ISALPHA s
  end.

(** [str.isupper()]: no character is lowercase and at least one is
    uppercase. *)
Definition isupper (s : str) : bool :=
  forallb (fun c => negb (Py_UNICODE_ISLOWER c)) s
  && existsb Py_UNICODE_ISUPPER s.

(** [str.lstrip()], [str.rstrip()] and [str.strip()] without argument. *)
Fixpoint lstrip (s : str) : str :=
  match s with
  | [] => []
  | c :: s' => if Py_UNICODE_ISSPACE c then lstrip s' else s
  end.

Definition rstrip (s : str) : str := reverse (lstrip (reverse s)).

Definition strip (s : str) : str := rstrip (lstrip s).

(** [s.startswith(p)]. *)
Fixpoint startswith (p s : str) : bool :=
  match p, s with
  | [], _ => true
  | _ :: _, [] => false
  | a :: p', b :: s' => Ascii.eqb a b && startswith p' s'
  end.

(** [s.find(sub)]: the index of the first occurrence of [sub] in [s]. *)
Fixpoint find (sub s : str) : option nat :=
  if startswith sub s then Some 0
  else match s with
       | [] => None
       | _ :: s' => S <$> find sub s'
       end.

(** [sub in s]. *)
Definition contains (sub s : str) : bool := bool_decide (is_Some (find sub s)).

(** [s.count(c)] and [s.replace(c, '')] for a one-character string [c]. *)
Definition count (c : ascii) (s : str) : nat :=
  length (filter (fun x => x = c) s).

Definition remove_char (c : ascii) (s : str) : str :=
  filter (fun x => x ≠ c) s.

(** ** Exceptions *)

Inductive exn : Type := IndexError | ValueError.

Inductive result (A : Type) : Type :=
  | Ok (a : A)
  | Raise (e : exn).
Arguments Ok {A} a.
Arguments Raise {A} e.

#[global] Instance result_ret : MRet result := fun A a => Ok a.
#[global] Instance result_bind : MBind result := fun A B f m =>
  match m with
  | Ok a => f a
  | Raise e => Raise e
  end.

(** [s.index(sub)] raises [ValueError] when [sub] does not occur. *)
Definition index (sub s : str) : result nat :=
  match find sub s with
  | Some i => Ok i
  | None => Raise ValueError
  end.

(** [s[i]] for an integer [i]: a negative index counts from the end, an
    index out of range raises [IndexError]. *)
Definition getitem (s : str) (i : Z) : result ascii :=
  let j := if (i <? 0)%Z then (i + Z.of_nat (length s))%Z else i in
  if (j <? 0)%Z then Raise IndexError
  else match s !! Z.to_nat j with
       | Some c => Ok c
       | None => Raise IndexError
       end.

(** Truth value of a Python object that is [None], [True] or [False]. *)
Definition truthy (b : option bool) : bool :=
  match b with
  | Some true => true
  | _ => false
  end.

(** ** The line classifier *)

Definition is_speaker_name (text : str) : bool :=
  if isupper text then
    if isalpha text then true
    else if contains (lit "'") text && (count "'" text =? 1) then
      let stripped := remove_char "'" text in
      isalpha stripped
    else false
  else false.

(** The function has no [return] on the path where the token holds no
    space: it returns [None] there. *)
Definition is_speaker_annotated (speaker : str) : result (option bool) :=
  if contains (lit " ") speaker then
    space_index ← index (lit " ") speaker;
    opening_punc ← getitem speaker (Z.of_nat space_index + 1);
    closing_punc ← getitem speaker (-1);
    if ((opening_punc =? "(")%char || (opening_punc =? "[")%char)
       && ((closing_punc =? ")")%char || (closing_punc =? "]")%char)
    then Ok (Some true)
    else Ok (Some false)
  else Ok None.

(** The test of the first [if]: [or] and [and] evaluate their right
    operand only when needed. *)
Definition is_action (line : str) : result bool :=
  if bool_decide (line = []) then Ok true
  else
    first ← getitem line 0;
    bracketed ← (if (first =? "[")%char
                 then last_ ← getitem line (-1); Ok (last_ =? "]")%char
                 else Ok false);
    if (bracketed : bool) then Ok true
    else
      first ← getitem line 0;
      if (first =? "(")%char
      then last_ ← getitem line (-1); Ok (last_ =? ")")%char
      else Ok false.

Definition parse_transcription_line (line : str)
  : result (option str * option str) :=
  let line := strip line in
  action ← is_action line;
  if (action : bool) then Ok (None, None)
  else
    let fallthrough := Ok (None, Some line) in
    if contains (lit ": ") line then
      space_index ← index (lit " ") line;
      col_index ← index (lit ": ") line;
      if negb (col_index =? 0) then
        let speaker_part := take col_index line in
        let spoken_part := drop (col_index + 2) line in
        if is_speaker_name speaker_part then
          Ok (Some speaker_part, Some spoken_part)
        else if space_index <? col_index then
          annotated ← is_speaker_annotated speaker_part;
          if truthy annotated then
            let speaker_part := take space_index line in
            if is_speaker_name speaker_part then
              Ok (Some speaker_part, Some spoken_part)
            else fallthrough
          else fallthrough
        else fallthrough
      else fallthrough
    else fallthrough.

(** The line terminator [\r\n] that is written after every line. *)
Definition crlf : str := [ascii_of_nat 13; ascii_of_nat 10].

(** ** The bucket writer *)

(** A file on disk together with the state of the file object that was
    opened on it. A file object is identified by the path it was opened
    on: within one transcript every path is opened at most once. *)
Record file : Type := { content : str; is_open : bool }.

(** The lines printed on standard output. *)
Inductive message : Type :=
  | Processing_file (filename : str)
  | Missed_speaker (line_number : nat) (words : str).

(** The attributes of [self] that [process_transcription] updates, its
    local variables, and the outside world it acts on. *)
Record state : Type := {
  files_processed : nat;
  files_created : nat;
  file_handles : gmap str str;
  output_file : option str;
  line_number : nat;
  disk : gmap str file;
  stdout : list message
}.

Definition set_files_processed (n : nat) (st : state) : state :=
  {| files_processed := n; files_created := files_created st;
     file_handles := file_handles st; output_file := output_file st;
     line_number := line_number st; disk := disk st; stdout := stdout st |}.

Definition set_files_created (n : nat) (st : state) : state :=
  {| files_processed := files_processed st; files_created := n;
     file_handles := file_handles st; output_file := output_file st;
     line_number := line_number st; disk := disk st; stdout := stdout st |}.

Definition set_file_handles (m : gmap str str) (st : state) : state :=
  {| files_processed := files_processed st; files_created := files_created st;
     file_handles := m; output_file := output_file st;
     line_number := line_number st; disk := disk st; stdout := stdout st |}.

Definition set_output_file (f : option str) (st : state) : state :=
  {| files_processed := files_processed st; files_created := files_created st;
     file_handles := file_handles st; output_file := f;
     line_number := line_number st; disk := disk st; stdout := stdout st |}.

Definition set_line_number (n : nat) (st : state) : state :=
  {| files_processed := files_processed st; files_created := files_created st;
     file_handles := file_handles st; output_file := output_file st;
     line_number := n; disk := disk st; stdout := stdout st |}.

Definition set_disk (d : gmap str file) (st : state) : state :=
  {| files_processed := files_processed st; files_created := files_created st;
     file_handles := file_handles st; output_file := output_file st;
     line_number := line_number st; disk := d; stdout := stdout st |}.

(** [print(...)]. *)
Definition print (m : message) (st : state) : state :=
  {| files_processed := files_processed st; files_created := files_created st;
     file_handles := file_handles st; output_file := output_file st;
     line_number := line_number st; disk := disk st;
     stdout := stdout st ++ [m] |}.

(** [open(path, 'w')]: the file is created or truncated. *)
Definition open_w (path : str) (d : gmap str file) : gmap str file :=
  <[path := {| content := []; is_open := true |}]> d.

(** [f.write(text)]. *)
Definition appended (text : str) (x : file) : file :=
  {| content := content x ++ text; is_open := is_open x |}.

Definition write (f text : str) (d : gmap str file) : gmap str file :=
  alter (appended text) f d.

(** [f.close()]. *)
Definition closed_file (x : file) : file :=
  {| content := content x; is_open := false |}.

Definition close (f : str) (d : gmap str file) : gmap str file :=
  alter closed_file f d.

(** ['%s_%s.txt' % (bucket_path, speaker)]. *)
Definition bucket_file (bucket_path speaker : str) : str :=
  bucket_path ++ lit "_" ++ speaker ++ lit ".txt".

(** The outcome of running statements: normal completion, or an exception
    that propagates; both with the state reached. *)
Inductive outcome : Type :=
  | Done (st : state)
  | Aborted (e : exn) (st : state).

Definition final (o : outcome) : state :=
  match o with
  | Done st => st
  | Aborted _ st => st
  end.

(** [if speaker not in file_handles: ...] followed by
    [output_file = file_handles[speaker]]; the speaker is in the dictionary
    by then, so the subscript finds it. *)
Definition select_bucket (bucket_path speaker : str) (st : state) : state :=
  let st :=
    if bool_decide (file_handles st !! speaker = None) then
      let f := bucket_file bucket_path speaker in
      let st := set_disk (open_w f (disk st)) st in
      let st := set_file_handles (<[speaker := f]> (file_handles st)) st in
      set_files_created (S (files_created st)) st
    else st in
  set_output_file (file_handles st !! speaker) st.

(** [if output_file: output_file.write(words + '\r\n')] and its [else]
    branch, which reports the line. A file object is always true. *)
Definition deliver (words : str) (st : state) : state :=
  match output_file st with
  | Some f => set_disk (write f (words ++ crlf) (disk st)) st
  | None => print (Missed_speaker (line_number st) words) st
  end.

(** The body of [for line in speech_file]. *)
Definition loop_body (bucket_path line : str) (st : state) : outcome :=
  let st := set_line_number (S (line_number st)) st in
  match parse_transcription_line line with
  | Raise e => Aborted e st
  | Ok (speaker, words) =>
      match words with
      | Some ((_ :: _) as words) =>
          let st :=
            match speaker with
            | Some ((_ :: _) as speaker) => select_bucket bucket_path speaker st
            | _ => st
            end in
          Done (deliver words st)
      | _ => Done st
      end
  end.

Fixpoint for_lines (bucket_path : str) (lines : list str) (st : state)
  : outcome :=
  match lines with
  | [] => Done st
  | line :: lines' =>
      match loop_body bucket_path line st with
      | Done st' => for_lines bucket_path lines' st'
      | Aborted e st' => Aborted e st'
      end
  end.

(** [for key in file_handles: file_handles[key].close()]. *)
Definition close_all (handles : gmap str str) (d : gmap str file)
  : gmap str file :=
  map_fold (fun _ f d => close f d) d handles.

(** The state in which the loop starts: [file_handles = {}],
    [output_file = None], [line_number = 0], after the first [print]. *)
Definition enter (filename : str) (st : state) : state :=
  set_line_number 0
    (set_output_file None
       (set_file_handles ∅ (print (Processing_file filename) st))).

(** [process_transcription], from the point where [bucket_path] has been
    computed; [lines] are the lines the input file yields. *)
Definition process_transcription (bucket_path filename : str)
    (lines : list str) (st : state) : outcome :=
  match for_lines bucket_path lines (enter filename st) with
  | Done st =>
      let st := set_disk (close_all (file_handles st) (disk st)) st in
      Done (set_files_processed (S (files_processed st)) st)
  | Aborted e st => Aborted e st
  end.

(** A new [TranscriptionParser] and an empty output directory. *)
Definition initial : state :=
  {| files_processed := 0; files_created := 0; file_handles := ∅;
     output_file := None; line_number := 0; disk := ∅; stdout := [] |}.

(** * Specification predicates *)

(** A line wrapped in a matching pair: its first character is the opening
    symbol and its last character the corresponding closing symbol. *)
Definition wrapped (s : str) : Prop :=
  (head s = Some "["%char ∧ last s = Some "]"%char)
  ∨ (head s = Some "("%char ∧ last s = Some ")"%char).

#[global] Instance wrapped_dec s : Decision (wrapped s).
Proof. unfold wrapped. apply _. Defined.

(** "All-uppercase", "purely alphabetic" and "exactly one apostrophe,
    otherwise alphabetic", in the words of the specification. *)
Definition all_uppercase (s : str) : Prop :=
  (∀ c, c ∈ s → Py_UNICODE_ISLOWER c = false)
  ∧ (∃ c, c ∈ s ∧ Py_UNICODE_ISUPPER c = true).

Definition purely_alphabetic (s : str) : Prop :=
  ∀ c, c ∈ s → Py_UNICODE_ISALPHA c = true.

Definition one_apostrophe_removed (s t : str) : Prop :=
  ∃ s1 s2, s = s1 ++ "'"%char :: s2 ∧ ("'"%char ∉ s1) ∧ ("'"%char ∉ s2)
           ∧ t = s1 ++ s2.

Definition speaker_name_spec (s : str) : Prop :=
  all_uppercase s
  ∧ (purely_alphabetic s
     ∨ ∃ t, one_apostrophe_removed s t ∧ purely_alphabetic t).

(** An annotated speaker: what follows the first space starts with [o] and
    the token ends with [e], for an opening symbol [o] and a closing symbol
    [e] related by [pair]. *)
Definition annotated_by (pair : ascii → ascii → Prop) (speaker : str) : Prop :=
  ∃ pre rest o e,
    speaker = pre ++ " "%char :: rest ∧ (" "%char ∉ pre)
    ∧ head rest = Some o ∧ last speaker = Some e ∧ pair o e.

(** The closing symbol matches the opening one. *)
Definition annotated_matching : str → Prop :=
  annotated_by (fun o e =>
    (o = "("%char ∧ e = ")"%char) ∨ (o = "["%char ∧ e = "]"%char)).

(** Any opening symbol with any closing symbol. *)
Definition annotated_loose : str → Prop :=
  annotated_by (fun o e =>
    (o = "("%char ∨ o = "["%char) ∧ (e = ")"%char ∨ e = "]"%char)).

(** The results the classifier can produce: an exception, or one of the
    three shapes of the specification. *)
Inductive parsed : result (option str * option str) → Prop :=
  | parsed_raise e : parsed (Raise e)
  | parsed_discard : parsed (Ok (None, None))
  | parsed_continuation text : text ≠ [] → parsed (Ok (None, Some text))
  | parsed_new_speaker speaker text :
      is_speaker_name speaker = true → text ≠ [] →
      parsed (Ok (Some speaker, Some text)).

(** No file object is open. *)
Definition no_open_files (d : gmap str file) : Prop :=
  ∀ path f, d !! path = Some f → is_open f = false.

(** An output location is fresh when no bucket file exists there. *)
Definition fresh (bucket_path : str) (d : gmap str file) : Prop :=
  ∀ speaker, d !! bucket_file bucket_path speaker = None.

(** Invariants of the loop. Every handle in [file_handles] is the bucket
    file of its speaker and exists on disk, and the current output file is
    one of them. *)
Definition handles_ok (bucket_path : str) (st : state) : Prop :=
  (∀ speaker h, file_handles st !! speaker = Some h →
     h = bucket_file bucket_path speaker ∧ is_Some (disk st !! h))
  ∧ (∀ h, output_file st = Some h →
       ∃ speaker, file_handles st !! speaker = Some h).

(** Every open file object is held in [file_handles]. *)
Definition tracked (st : state) : Prop :=
  ∀ path f, disk st !! path = Some f → is_open f = true →
    ∃ speaker, file_handles st !! speaker = Some path.

(** Two runs of the loop, into the bucket paths [bp1] and [bp2], from
    parsers that had created [c1] and [c2] files before: they have opened
    the buckets of the same speakers, write to the bucket of the same
    current speaker, and the bucket files hold the same. *)
Record sim (bp1 bp2 : str) (c1 c2 : nat) (st1 st2 : state) : Prop := {
  sim_line_number : line_number st1 = line_number st2;
  sim_files_created :
    ∃ n, files_created st1 = c1 + n ∧ files_created st2 = c2 + n;
  sim_file_handles : ∀ sp,
    (file_handles st1 !! sp = None ∧ file_handles st2 !! sp = None)
    ∨ (file_handles st1 !! sp = Some (bucket_file bp1 sp)
       ∧ file_handles st2 !! sp = Some (bucket_file bp2 sp));
  sim_output_file : ∃ cur : option str,
    output_file st1 = bucket_file bp1 <$> cur
    ∧ output_file st2 = bucket_file bp2 <$> cur;
  sim_disk : ∀ sp,
    disk st1 !! bucket_file bp1 sp = disk st2 !! bucket_file bp2 sp
}.

Definition sim_outcome (bp1 bp2 : str) (c1 c2 : nat) (o1 o2 : outcome)
  : Prop :=
  match o1, o2 with
  | Done st1, Done st2 => sim bp1 bp2 c1 c2 st1 st2
  | Aborted e1 st1, Aborted e2 st2 => e1 = e2 ∧ sim bp1 bp2 c1 c2 st1 st2
  | _, _ => False
  end.

(** ** The bucket path

    The first lines of [process_transcription], on a POSIX system:
    [os.path] is [posixpath]. *)

(** [s.rfind(c)] for a one-character string [c]: the highest index at which
    [c] occurs; [None] stands for the result -1. *)
Fixpoint rfind (c : ascii) (s : str) : option nat :=
  match s with
  | [] => None
  | b :: s' =>
      match rfind c s' with
      | Some i => Some (S i)
      | None => if Ascii.eqb b c then Some 0 else None
      end
  end.

(** [s.rindex(c)] raises [ValueError] when [c] does not occur. *)
Definition rindex (c : ascii) (s : str) : result nat :=
  match rfind c s with
  | Some i => Ok i
  | None => Raise ValueError
  end.

(** [s.rstrip(c)] for a one-character string [c]. *)
Fixpoint lstrip_char (c : ascii) (s : str) : str :=
  match s with
  | [] => []
  | b :: s' => if Ascii.eqb b c then lstrip_char c s' else s
  end.

Definition rstrip_char (c : ascii) (s : str) : str :=
  reverse (lstrip_char c (reverse s)).

(** [posixpath.split(p)]: the path is cut after its last slash; trailing
    slashes are removed from the head unless it consists of slashes
    only. *)
Definition os_path_split (p : str) : str * str :=
  let i := match rfind "/" p with Some j => S j | None => 0 end in
  let head := take i p in
  let tail := drop i p in
  let head :=
    if negb (bool_decide (head = []))
       && negb (forallb (fun c => Ascii.eqb c "/") head)
    then rstrip_char "/" head
    else head in
  (head, tail).

(** [posixpath.join(a, b)]. *)
Definition os_path_join (a b : str) : str :=
  if startswith (lit "/") b then b
  else if bool_decide (a = []) || bool_decide (last a = Some "/"%char)
       then a ++ b
       else a ++ lit "/" ++ b.

(** [os.path.join(self.output_dir,
      self.output_prefix + filename[:filename.rindex('.')])]. *)
Definition bucket_path_of (output_dir output_prefix filename : str)
  : result str :=
  i ← rindex "." filename;
  Ok (os_path_join output_dir (output_prefix ++ take i filename)).

(** [TranscriptionParser.process_transcription] from its first line:
    [self.output_dir] and [self.output_prefix] are the first two
    arguments. The file name is printed before the bucket path is
    computed. *)
Definition TranscriptionParser_process_transcription
    (output_dir output_prefix filepath : str) (lines : list str)
    (st : state) : outcome :=
  let filename := (os_path_split filepath).2 in
  match bucket_path_of output_dir output_prefix filename with
  | Raise e => Aborted e (print (Processing_file filename) st)
  | Ok bucket_path => process_transcription bucket_path filename lines st
  end.

(** ** Attribution

    What a transcript says, read off the classification alone: every line
    with words, with its 1-based line number and the speaker it goes to,
    which is the speaker the line names or else the last speaker named
    before it ([None] while no speaker has been named). The list ends
    before the first line on which the classifier raises. *)
Fixpoint attribution (cur : option str) (n : nat) (lines : list str)
  : list (nat * option str * str) :=
  match lines with
  | [] => []
  | line :: lines' =>
      match parse_transcription_line line with
      | Raise _ => []
      | Ok (Some speaker, Some text) =>
          (S n, Some speaker, text) :: attribution (Some speaker) (S n) lines'
      | Ok (None, Some text) =>
          (S n, cur, text) :: attribution cur (S n) lines'
      | Ok (_, None) => attribution cur (S n) lines'
      end
  end.

(** The speakers that lines are attributed to. *)
Definition speakers (a : list (nat * option str * str)) : list str :=
  omap (fun x => x.1.2) a.

(** The text of a speaker's bucket: the attributed lines, in order, each
    followed by [\r\n]. *)
Definition bucket_text (speaker : str) (a : list (nat * option str * str))
  : str :=
  concat ((fun x => if decide (x.1.2 = Some speaker) then x.2 ++ crlf else [])
            <$> a).

(** The warnings: one for each line attributed to no speaker. *)
Definition warnings (a : list (nat * option str * str)) : list message :=
  omap (fun x => match x.1.2 with
                 | None => Some (Missed_speaker x.1.1 x.2)
                 | Some _ => None
                 end) a.

(** What the loop, run on lines with the attribution [a] from a state
    [st], leaves in the bucket file of a speaker and in that speaker's
    entry of [file_handles]: a bucket that is already open is appended to;
    one that is not is created, empty, when the speaker first speaks. *)
Definition bucket_after (bucket_path : str) (st : state) (speaker : str)
    (a : list (nat * option str * str)) : option file :=
  match file_handles st !! speaker with
  | Some _ =>
      appended (bucket_text speaker a)
        <$> disk st !! bucket_file bucket_path speaker
  | None =>
      if bool_decide (speaker ∈ speakers a)
      then Some {| content := bucket_text speaker a; is_open := true |}
      else disk st !! bucket_file bucket_path speaker
  end.

Definition handle_after (bucket_path : str) (st : state) (speaker : str)
    (a : list (nat * option str * str)) : option str :=
  match file_handles st !! speaker with
  | Some h => Some h
  | None =>
      if bool_decide (speaker ∈ speakers a)
      then Some (bucket_file bucket_path speaker)
      else None
  end.

(** * Properties *)

(** A character does not occur in a string literal. *)
Ltac not_in_literal :=
  let H := fresh in
  vm_compute; intros H;
  repeat (apply elem_of_cons in H as [H|H]; [done|]);
  by apply elem_of_nil in H.


(** ** Facts about the string operations *)

Section StringFacts.
Implicit Types (s t sub pre rest : str) (c : ascii).

Lemma startswith_app sub t : startswith sub (sub ++ t) = true.
Proof.
  induction sub as [|a sub IH]; simpl; [done|].
  by rewrite Ascii.eqb_refl, IH.
Qed.

Lemma startswith_inv sub s :
  startswith sub s = true → ∃ t, s = sub ++ t.
Proof.
  revert s. induction sub as [|a sub IH]; intros s H; simpl in *.
  - by exists s.
  - destruct s as [|b s]; [done|].
    apply andb_true_iff in H as [Hab Hs].
    apply Ascii.eqb_eq in Hab as ->.
    destruct (IH _ Hs) as [t ->]. by exists t.
Qed.

(** [find] returns a position where [sub] occurs. *)
Lemma find_Some sub s i :
  find sub s = Some i → ∃ t, drop i s = sub ++ t ∧ i ≤ length s.
Proof.
  revert i. induction s as [|b s IH]; intros i; simpl.
  - destruct (startswith sub []) eqn:E; [|done].
    intros [= <-]. apply startswith_inv in E as [t E].
    exists t. split; [done|simpl; lia].
  - destruct (startswith sub (b :: s)) eqn:E.
    + intros [= <-]. apply startswith_inv in E as [t E].
      exists t. split; [done|lia].
    + destruct (find sub s) as [j|] eqn:F; [|done].
      intros [= <-]. destruct (IH j eq_refl) as (t & Ht & Hj).
      exists t. split; [done|simpl; lia].
Qed.

Lemma find_startswith sub s : startswith sub s = true → find sub s = Some 0.
Proof. intros H. destruct s; simpl; by rewrite H. Qed.

(** An occurrence of [sub] anywhere in [s] is found. *)
Lemma find_is_Some pre sub rest : is_Some (find sub (pre ++ sub ++ rest)).
Proof.
  induction pre as [|b pre IH]; simpl.
  - rewrite find_startswith; [by eexists|apply startswith_app].
  - destruct (startswith sub (b :: pre ++ sub ++ rest)); [by eexists|].
    destruct IH as [j ->]. by eexists.
Qed.

Lemma contains_true sub s :
  contains sub s = true ↔ ∃ pre rest, s = pre ++ sub ++ rest.
Proof.
  unfold contains. rewrite bool_decide_eq_true. split.
  - intros [i Hi]. destruct (find_Some _ _ _ Hi) as (t & Ht & _).
    exists (take i s), t. by rewrite <- Ht, take_drop.
  - intros (pre & rest & ->). apply find_is_Some.
Qed.

(** The first occurrence of a character. *)
Lemma find_char c pre rest :
  c ∉ pre → find [c] (pre ++ c :: rest) = Some (length pre).
Proof.
  induction pre as [|b pre IH]; intros Hc; simpl.
  - by rewrite Ascii.eqb_refl.
  - apply not_elem_of_cons in Hc as [Hcb Hc].
    destruct (Ascii.eqb c b) eqn:E; [by apply Ascii.eqb_eq in E|].
    simpl. by rewrite (IH Hc).
Qed.

Lemma contains_char c s : contains [c] s = true ↔ c ∈ s.
Proof.
  rewrite contains_true. split.
  - intros (pre & rest & ->). set_solver.
  - intros H. apply list_elem_of_split in H as (l1 & l2 & ->).
    by exists l1, l2.
Qed.

Lemma first_split_unique c pre pre' rest rest' :
  c ∉ pre → c ∉ pre' → pre ++ c :: rest = pre' ++ c :: rest' →
  pre = pre' ∧ rest = rest'.
Proof.
  revert pre'. induction pre as [|b pre IH]; intros [|b' pre'] H1 H2 E;
    simpl in E.
  - by injection E as ->.
  - injection E as -> _. by apply not_elem_of_cons in H2 as [? _].
  - injection E as -> _. by apply not_elem_of_cons in H1 as [? _].
  - injection E as -> E.
    apply not_elem_of_cons in H1 as [_ H1].
    apply not_elem_of_cons in H2 as [_ H2].
    by destruct (IH _ H1 H2 E) as [-> ->].
Qed.

(** [lstrip] and [strip] cut whitespace off the ends. *)
Lemma lstrip_suffix s : ∃ ws, s = ws ++ lstrip s.
Proof.
  induction s as [|b s [ws IH]]; simpl.
  - by exists [].
  - destruct (Py_UNICODE_ISSPACE b).
    + exists (b :: ws). simpl. by rewrite <- IH.
    + by exists [].
Qed.

Lemma head_lstrip s c : head (lstrip s) = Some c → Py_UNICODE_ISSPACE c = false.
Proof.
  induction s as [|b s IH]; simpl; [done|].
  destruct (Py_UNICODE_ISSPACE b) eqn:E; [done|].
  simpl. by intros [= <-].
Qed.

Lemma rstrip_prefix s : ∃ ws, s = rstrip s ++ ws.
Proof.
  unfold rstrip. destruct (lstrip_suffix (reverse s)) as [ws E].
  exists (reverse ws).
  rewrite <- reverse_app, <- E. by rewrite reverse_involutive.
Qed.

Lemma strip_infix s : ∃ l r, s = l ++ strip s ++ r.
Proof.
  unfold strip. destruct (lstrip_suffix s) as [l El].
  destruct (rstrip_prefix (lstrip s)) as [r Er].
  exists l, r. by rewrite <- Er.
Qed.

Lemma last_strip s c : last (strip s) = Some c → Py_UNICODE_ISSPACE c = false.
Proof.
  unfold strip, rstrip. rewrite last_reverse. apply head_lstrip.
Qed.

Lemma contains_strip sub s :
  contains sub (strip s) = true → contains sub s = true.
Proof.
  rewrite !contains_true. intros (pre & rest & E).
  destruct (strip_infix s) as (l & r & Es).
  exists (l ++ pre), (rest ++ r). rewrite Es, E.
  by rewrite <- !app_assoc.
Qed.

(** Indexing. *)
Lemma getitem_nat s (n : nat) :
  getitem s (Z.of_nat n) =
  match s !! n with Some c => Ok c | None => Raise IndexError end.
Proof.
  assert ((Z.of_nat n <? 0)%Z = false) as E by (apply Z.ltb_ge; lia).
  unfold getitem. rewrite E. simpl. by rewrite E, Nat2Z.id.
Qed.

Lemma getitem_last s :
  getitem s (-1) =
  match last s with Some c => Ok c | None => Raise IndexError end.
Proof.
  destruct s as [|b s]; [done|].
  unfold getitem. change (-1 <? 0)%Z with true. cbv iota zeta.
  assert ((-1 + Z.of_nat (length (b :: s)) <? 0)%Z = false) as E.
  { apply Z.ltb_ge. simpl length. lia. }
  rewrite E, last_lookup.
  replace (Z.to_nat (-1 + Z.of_nat (length (b :: s))))
    with (pred (length (b :: s))) by (simpl length; lia).
  done.
Qed.

End StringFacts.

(** ** Facts about the classifier *)

Section ClassifierFacts.
Implicit Types (s t line : str) (c : ascii).

Lemma count_nil c s : count c s = 0 ↔ c ∉ s.
Proof.
  unfold count. induction s as [|b s IH]; simpl.
  - split; [intros _; apply not_elem_of_nil|done].
  - rewrite filter_cons, not_elem_of_cons.
    destruct (decide (b = c)) as [->|Hb]; simpl.
    + split; [done|]. by intros [? _].
    + rewrite IH. split; [by split|by intros [_ ?]].
Qed.

Lemma remove_char_id c s : c ∉ s → remove_char c s = s.
Proof.
  unfold remove_char. induction s as [|b s IH]; [done|].
  rewrite not_elem_of_cons, filter_cons. intros [Hcb Hc].
  destruct (decide (b ≠ c)) as [_|Hb]; [by rewrite IH|].
  by destruct Hb.
Qed.

Lemma remove_char_split c s1 s2 :
  c ∉ s1 → c ∉ s2 → remove_char c (s1 ++ c :: s2) = s1 ++ s2.
Proof.
  intros H1 H2. unfold remove_char. rewrite filter_app, filter_cons.
  destruct (decide (c ≠ c)) as [?|_]; [done|].
  fold (remove_char c s1) (remove_char c s2).
  by rewrite !remove_char_id.
Qed.

(** A string with exactly one [c] splits around it. *)
Lemma count_one c s :
  count c s = 1 ↔ ∃ s1 s2, s = s1 ++ c :: s2 ∧ (c ∉ s1) ∧ (c ∉ s2).
Proof.
  split.
  - induction s as [|b s IH]; [done|].
    unfold count in *. rewrite filter_cons.
    destruct (decide (b = c)) as [->|Hb]; simpl.
    + intros [= H]. apply (count_nil c s) in H.
      exists [], s. split_and!; [done|apply not_elem_of_nil|done].
    + intros H. destruct (IH H) as (s1 & s2 & -> & H1 & H2).
      exists (b :: s1), s2. split_and!; [done| |done].
      apply not_elem_of_cons. by split.
  - intros (s1 & s2 & -> & H1 & H2). unfold count.
    rewrite filter_app, filter_cons, length_app.
    destruct (decide (c = c)) as [_|?]; [|done]. simpl.
    apply count_nil in H1, H2. unfold count in H1, H2. lia.
Qed.

Lemma isalpha_true s :
  isalpha s = true ↔ s ≠ [] ∧ ∀ c, c ∈ s → Py_UNICODE_ISALPHA c = true.
Proof.
  unfold isalpha. destruct s as [|b s]; [by split; [|intros [? _]]|].
  rewrite forallb_forall. split.
  - intros H. split; [done|]. intros c Hc. by apply H, list_elem_of_In.
  - intros [_ H] c Hc. by apply H, list_elem_of_In.
Qed.

Lemma isupper_true s :
  isupper s = true ↔
  (∀ c, c ∈ s → Py_UNICODE_ISLOWER c = false)
  ∧ (∃ c, c ∈ s ∧ Py_UNICODE_ISUPPER c = true).
Proof.
  unfold isupper. rewrite andb_true_iff, forallb_forall, existsb_exists.
  split; intros [H1 [c [Hc Hu]]]; (split; [|exists c; split; [|done]]).
  - intros x Hx. apply negb_true_iff, H1. by apply list_elem_of_In.
  - by apply list_elem_of_In.
  - intros x Hx. apply negb_true_iff, H1. by apply list_elem_of_In.
  - by apply list_elem_of_In.
Qed.

(** The nested conditionals of [is_speaker_name] as one condition. *)
Lemma is_speaker_name_true s :
  is_speaker_name s = true ↔
  isupper s = true
  ∧ (isalpha s = true
     ∨ (count "'" s = 1 ∧ isalpha (remove_char "'" s) = true)).
Proof.
  unfold is_speaker_name.
  destruct (isupper s); [|by split; [|intros [? _]]].
  destruct (isalpha s); [by split; [split; [|left]|]|].
  change (lit "'") with ["'"%char].
  destruct (contains ["'"%char] s) eqn:Hin; simpl.
  - destruct (Nat.eqb_spec (count "'" s) 1) as [Hc|Hc].
    + split; [intros H; split; [done|by right]|].
      by intros [_ [?|[_ ?]]].
    + split; [done|]. by intros [_ [?|[? _]]].
  - split; [done|]. intros [_ [?|[Hc _]]]; [done|].
    apply count_one in Hc as (s1 & s2 & -> & _).
    assert (contains ["'"%char] (s1 ++ "'"%char :: s2) = true) as E
      by (apply contains_char; set_solver).
    congruence.
Qed.

(** The action test never raises: the indices it uses exist when the line
    is not empty. *)
Lemma is_action_Ok s : is_action s = Ok (bool_decide (s = [] ∨ wrapped s)).
Proof.
  unfold is_action. case_bool_decide as Hnil.
  { subst. by rewrite bool_decide_eq_true_2; [|left]. }
  change 0%Z with (Z.of_nat 0). rewrite getitem_nat, getitem_last.
  rewrite <- head_lookup.
  destruct s as [|b s]; [done|]. simpl head.
  destruct (last (b :: s)) as [e|] eqn:Hlast.
  2:{ by apply last_None in Hlast. }
  simpl.
  destruct (Ascii.eqb_spec b "[") as [->|Hb1]; simpl.
  - destruct (Ascii.eqb_spec e "]") as [->|He1]; simpl.
    + rewrite bool_decide_eq_true_2; [done|]. right. left. by rewrite Hlast.
    + rewrite bool_decide_eq_false_2; [done|].
      intros [?|[[_ H]|[H _]]]; [done| |done]. rewrite Hlast in H. congruence.
  - destruct (Ascii.eqb_spec b "(") as [->|Hb2]; simpl.
    + destruct (Ascii.eqb_spec e ")") as [->|He2]; simpl.
      * rewrite bool_decide_eq_true_2; [done|]. right. right.
        by rewrite Hlast.
      * rewrite bool_decide_eq_false_2; [done|].
        intros [?|[[H _]|[_ H]]]; [done|done|]. rewrite Hlast in H. congruence.
    + rewrite bool_decide_eq_false_2; [done|].
      intros [?|[[H _]|[H _]]]; [done| |]; simpl in H; congruence.
Qed.

(** The words after the delimiter are never empty: the stripped line does
    not end with a space. *)
Lemma drop_after_delimiter s i :
  find (lit ": ") (strip s) = Some i → drop (i + 2) (strip s) ≠ [].
Proof.
  intros Hf Hd. destruct (find_Some _ _ _ Hf) as (t & Ht & _).
  assert (t = []) as ->.
  { rewrite <- drop_drop, Ht in Hd. exact Hd. }
  assert (last (strip s) = Some " "%char) as Hl.
  { rewrite <- (take_drop i (strip s)), Ht. simpl.
    rewrite last_app. done. }
  by apply last_strip in Hl.
Qed.

End ClassifierFacts.

(** ** The classifier: claims *)

(** C1 (defect of the code). The classifier is meant to be total, but the
    annotation test reads the character after the first space without
    checking that there is one: on the line ["a : b"] the candidate token
    is ["a "], its first space is its last character, and
    [speaker[space_index + 1]] raises [IndexError], which
    [parse_transcription_line] does not catch. *)
Theorem parse_transcription_line_raises :
  is_speaker_annotated (lit "a ") = Raise IndexError
  ∧ parse_transcription_line (lit "a : b") = Raise IndexError.
Proof. split; vm_compute; reflexivity. Qed.

(** C2 as stated fails: the token ["SMITH [shouting)"] opens with a square
    bracket and closes with a parenthesis, and is accepted. *)
Lemma is_speaker_annotated_mismatched :
  is_speaker_annotated (lit "SMITH [shouting)") = Ok (Some true)
  ∧ ¬ annotated_matching (lit "SMITH [shouting)").
Proof.
  split; [vm_compute; reflexivity|].
  intros (pre & rest & o & e & Hs & Hpre & Ho & He & Hm).
  assert (pre = lit "SMITH" ∧ rest = lit "[shouting)") as [-> ->].
  { symmetry in Hs. apply (first_split_unique " " _ _ _ _ Hpre); [|exact Hs].
    not_in_literal. }
  vm_compute in Ho, He. simplify_eq.
  destruct Hm as [[? ?]|[? ?]]; done.
Qed.

(** C2 (amended). For a token with a space, the annotation test accepts
    exactly when the character after the first space is ['('] or ['['] and
    the last character of the token is [')'] or [']']; the two need not
    match. *)
Theorem is_speaker_annotated_accepts (pre rest : str) :
  " "%char ∉ pre →
  is_speaker_annotated (pre ++ " "%char :: rest) = Ok (Some true) ↔
  annotated_loose (pre ++ " "%char :: rest).
Proof.
  intros Hpre. unfold is_speaker_annotated, index.
  change (lit " ") with [" "%char].
  assert (contains [" "%char] (pre ++ " "%char :: rest) = true) as ->
    by (apply contains_char; set_solver).
  rewrite (find_char _ _ _ Hpre). simpl.
  replace (Z.of_nat (length pre) + 1)%Z with (Z.of_nat (S (length pre)))
    by lia.
  rewrite getitem_nat, getitem_last.
  rewrite lookup_app_r by lia.
  replace (S (length pre) - length pre) with 1 by lia. simpl.
  rewrite <- head_lookup.
  split.
  - intros H. exists pre, rest.
    destruct (head rest) as [o|]; [|done]. simpl in H.
    destruct (last (pre ++ " "%char :: rest)) as [e|]; [|done]. simpl in H.
    exists o, e. split_and!; [done..| |].
    + destruct (Ascii.eqb_spec o "("); [by left|].
      destruct (Ascii.eqb_spec o "["); [by right|done].
    + destruct (Ascii.eqb_spec e ")"); [by left|].
      destruct (Ascii.eqb_spec e "]"); [by right|].
      by rewrite orb_false_r, andb_false_r in H.
  - intros (pre' & rest' & o & e & Hs & Hpre' & Ho & He & Hopen & Hclose).
    destruct (first_split_unique _ _ _ _ _ Hpre Hpre' Hs) as [<- <-].
    rewrite Ho, He. simpl.
    destruct Hopen as [-> | ->]; destruct Hclose as [-> | ->]; done.
Qed.

Lemma is_speaker_annotated_accepts_witness :
  (" "%char ∉ lit "SMITH")
  ∧ (is_speaker_annotated (lit "SMITH" ++ " "%char :: lit "[shouting]")
       = Ok (Some true)
     ↔ annotated_loose (lit "SMITH" ++ " "%char :: lit "[shouting]")).
Proof.
  assert (" "%char ∉ lit "SMITH") as H.
  { not_in_literal. }
  split; [exact H|]. exact (is_speaker_annotated_accepts _ _ H).
Defined.

(** C3 as stated fails: ["'BRIEN"] starts with an apostrophe and is a
    valid speaker name. *)
Lemma is_speaker_name_leading_apostrophe :
  lit "'BRIEN" !! 0 = Some "'"%char ∧ is_speaker_name (lit "'BRIEN") = true.
Proof. split; vm_compute; reflexivity. Qed.

(** C3 (amended). A token accepted by the speaker-name test holds at most
    one apostrophe; the test does not look at where it stands. *)
Theorem is_speaker_name_apostrophes (s : str) :
  is_speaker_name s = true → count "'" s ≤ 1.
Proof.
  intros H. apply is_speaker_name_true in H as [_ [Ha|[Hc _]]]; [|lia].
  apply isalpha_true in Ha as [_ Ha].
  assert (count "'" s = 0) as ->; [|lia].
  apply count_nil. intros Hin. by apply Ha in Hin.
Qed.

Lemma is_speaker_name_apostrophes_witness :
  is_speaker_name (lit "O'BRIEN") = true ∧ count "'" (lit "O'BRIEN") ≤ 1.
Proof.
  assert (is_speaker_name (lit "O'BRIEN") = true) as H
    by (vm_compute; reflexivity).
  split; [exact H|]. exact (is_speaker_name_apostrophes _ H).
Defined.

(** C4. [is_speaker_name] accepts exactly the strings that are all
    uppercase and either purely alphabetic or purely alphabetic once their
    single apostrophe is removed; the five examples of the specification
    evaluate as stated. *)
Theorem is_speaker_name_spec :
  (∀ s : str, is_speaker_name s = true ↔ speaker_name_spec s)
  ∧ is_speaker_name (lit "SMITH") = true
  ∧ is_speaker_name (lit "O'BRIEN") = true
  ∧ is_speaker_name (lit "O''BRIEN") = false
  ∧ is_speaker_name (lit "Smith") = false
  ∧ is_speaker_name (lit "SMITH2") = false.
Proof.
  split; [|split_and!; vm_compute; reflexivity].
  intros s. rewrite is_speaker_name_true, isupper_true.
  unfold speaker_name_spec, all_uppercase, purely_alphabetic.
  split.
  - intros [Hup [Ha|[Hc Ha]]]; (split; [done|]).
    + left. by apply isalpha_true in Ha as [_ ?].
    + right. apply count_one in Hc as (s1 & s2 & -> & H1 & H2).
      rewrite remove_char_split in Ha by done.
      exists (s1 ++ s2). split; [by exists s1, s2|].
      by apply isalpha_true in Ha as [_ ?].
  - intros [Hup [Ha|(t & (s1 & s2 & -> & H1 & H2 & ->) & Ha)]];
      (split; [done|]).
    + left. apply isalpha_true. split; [|done].
      destruct Hup as [_ (c & Hc & _)]. intros ->. by apply elem_of_nil in Hc.
    + right. split; [apply count_one; by exists s1, s2|].
      rewrite remove_char_split by done. apply isalpha_true.
      split; [|done].
      destruct Hup as [_ (c & Hc & Hu)]. intros Hnil.
      apply app_eq_nil in Hnil as [-> ->]. simpl in Hc.
      apply elem_of_cons in Hc as [->|Hc]; [done|].
      by apply elem_of_nil in Hc.
Qed.

Lemma is_speaker_name_spec_witness :
  is_speaker_name (lit "D'ARCY") = true ∧ speaker_name_spec (lit "D'ARCY").
Proof.
  assert (is_speaker_name (lit "D'ARCY") = true) as H
    by (vm_compute; reflexivity).
  split; [exact H|].
  exact (proj1 (proj1 is_speaker_name_spec (lit "D'ARCY")) H).
Defined.

(** C5 as stated fails: ["[laughs]"] is not empty and holds no [": "], yet
    it is discarded. *)
Lemma bracketed_line_is_discarded :
  lit "[laughs]" ≠ []
  ∧ contains (lit ": ") (lit "[laughs]") = false
  ∧ parse_transcription_line (lit "[laughs]")
    ≠ Ok (None, Some (strip (lit "[laughs]"))).
Proof.
  split_and!; [vm_compute; discriminate | vm_compute; reflexivity |].
  vm_compute. discriminate.
Qed.

(** C5 (amended). A line without [": "] whose stripped form is neither
    empty nor wrapped in a matching pair of brackets or parentheses is a
    continuation: the classifier returns no speaker and the stripped line. *)
Theorem continuation_without_delimiter (line : str) :
  strip line ≠ [] →
  ¬ wrapped (strip line) →
  contains (lit ": ") line = false →
  parse_transcription_line line = Ok (None, Some (strip line)).
Proof.
  intros Hne Hw Hc. unfold parse_transcription_line.
  rewrite is_action_Ok, bool_decide_eq_false_2 by (by intros [?|?]).
  simpl.
  destruct (contains (lit ": ") (strip line)) eqn:E; [|done].
  apply contains_strip in E. congruence.
Qed.

Lemma continuation_without_delimiter_witness :
  strip (lit "Nice to see you.") ≠ []
  ∧ ¬ wrapped (strip (lit "Nice to see you."))
  ∧ contains (lit ": ") (lit "Nice to see you.") = false
  ∧ parse_transcription_line (lit "Nice to see you.")
    = Ok (None, Some (strip (lit "Nice to see you."))).
Proof.
  assert (strip (lit "Nice to see you.") ≠ []) as H1
    by (vm_compute; discriminate).
  assert (¬ wrapped (strip (lit "Nice to see you."))) as H2
    by (intros [[H _]|[H _]]; vm_compute in H; discriminate).
  assert (contains (lit ": ") (lit "Nice to see you.") = false) as H3
    by (vm_compute; reflexivity).
  split_and!; [done..|].
  exact (continuation_without_delimiter _ H1 H2 H3).
Defined.

(** ** Facts about the bucket writer *)

Section WriterFacts.
Implicit Types (st : state) (d : gmap str file) (bp sp line : str).

Lemma parse_view line : parsed (parse_transcription_line line).
Proof.
  unfold parse_transcription_line. rewrite is_action_Ok. simpl.
  case_bool_decide as Hact; [constructor|].
  assert (strip line ≠ []) as Hne by (intros ?; apply Hact; by left).
  destruct (contains (lit ": ") (strip line)); [|by constructor].
  unfold index.
  destruct (find (lit " ") (strip line)) as [k|]; [|constructor]. simpl.
  destruct (find (lit ": ") (strip line)) as [i|] eqn:Hi; [|constructor].
  simpl. pose proof (drop_after_delimiter _ _ Hi) as Hd.
  destruct (negb (i =? 0)); [|by constructor].
  destruct (is_speaker_name (take i (strip line))) eqn:Hn1;
    [by constructor|].
  destruct (k <? i); [|by constructor].
  destruct (is_speaker_annotated (take i (strip line))) as [a|];
    [|constructor].
  simpl. destruct (truthy a); [|by constructor].
  destruct (is_speaker_name (take k (strip line))) eqn:Hn2;
    by constructor.
Qed.

Lemma is_speaker_name_nonempty s : is_speaker_name s = true → s ≠ [].
Proof. by intros H ->. Qed.

Lemma bucket_file_inj bp sp1 sp2 :
  bucket_file bp sp1 = bucket_file bp sp2 → sp1 = sp2.
Proof.
  unfold bucket_file. intros H.
  apply app_inv_head in H. apply app_inv_head in H.
  by apply app_inv_tail in H.
Qed.

(** The loop body, case by case on the classification. *)
Lemma loop_body_raise bp line st e :
  parse_transcription_line line = Raise e →
  loop_body bp line st = Aborted e (set_line_number (S (line_number st)) st).
Proof. unfold loop_body. by intros ->. Qed.

Lemma loop_body_discard bp line st :
  parse_transcription_line line = Ok (None, None) →
  loop_body bp line st = Done (set_line_number (S (line_number st)) st).
Proof. unfold loop_body. by intros ->. Qed.

Lemma loop_body_continuation bp line st text :
  parse_transcription_line line = Ok (None, Some text) →
  loop_body bp line st
  = Done (deliver text (set_line_number (S (line_number st)) st)).
Proof.
  intros H. pose proof (parse_view line) as V. rewrite H in V.
  inversion V as [| |? Hne|]; subst. unfold loop_body. rewrite H.
  by destruct text.
Qed.

Lemma loop_body_new_speaker bp line st sp text :
  parse_transcription_line line = Ok (Some sp, Some text) →
  loop_body bp line st
  = Done (deliver text
            (select_bucket bp sp (set_line_number (S (line_number st)) st))).
Proof.
  intros H. pose proof (parse_view line) as V. rewrite H in V.
  inversion V as [| | |? ? Hsp Hne]; subst.
  apply is_speaker_name_nonempty in Hsp.
  unfold loop_body. rewrite H. by destruct text, sp.
Qed.

Lemma for_lines_app bp l1 l2 st :
  for_lines bp (l1 ++ l2) st
  = match for_lines bp l1 st with
    | Done st' => for_lines bp l2 st'
    | Aborted e st' => Aborted e st'
    end.
Proof.
  revert st. induction l1 as [|l l1 IH]; intros st; simpl; [done|].
  destruct (loop_body bp l st); [apply IH|done].
Qed.

(** After [select_bucket] the current output file is the speaker's. *)
Lemma select_bucket_output bp sp st :
  (∀ h, file_handles st !! sp = Some h → h = bucket_file bp sp) →
  output_file (select_bucket bp sp st) = Some (bucket_file bp sp).
Proof.
  intros Hh. unfold select_bucket. case_bool_decide as E; simpl.
  - by rewrite lookup_insert_eq.
  - destruct (file_handles st !! sp) as [h|]; [|done]. by rewrite (Hh h).
Qed.

(** What holds initially and is preserved by the three steps of the loop
    body holds when the loop ends, however it ends. *)
Lemma loop_body_preserves bp (P : state → Prop) :
  (∀ n st, P st → P (set_line_number n st)) →
  (∀ sp st, P st → P (select_bucket bp sp st)) →
  (∀ text st, P st → P (deliver text st)) →
  ∀ line st, P st → P (final (loop_body bp line st)).
Proof.
  intros Hn Hs Hd line st HP. unfold loop_body.
  destruct (parse_transcription_line line) as [[speaker words]|e]; simpl;
    [|by apply Hn].
  destruct words as [[|c w]|]; simpl; try by apply Hn.
  apply Hd. destruct speaker as [[|? ?]|]; auto.
Qed.

Lemma for_lines_preserves bp (P : state → Prop) :
  (∀ line st, P st → P (final (loop_body bp line st))) →
  ∀ lines st, P st → P (final (for_lines bp lines st)).
Proof.
  intros Hstep lines. induction lines as [|l lines IH]; intros st HP;
    simpl; [done|].
  specialize (Hstep l st HP).
  destruct (loop_body bp l st) as [st'|e st']; simpl in *; [by apply IH|done].
Qed.

Lemma lookup_write f text d path :
  write f text d !! path
  = if decide (f = path) then appended text <$> d !! path else d !! path.
Proof.
  unfold write. rewrite lookup_alter. by destruct (decide (f = path)) as [->|].
Qed.

Lemma handles_ok_select_bucket bp sp st :
  handles_ok bp st → handles_ok bp (select_bucket bp sp st).
Proof.
  intros [Ha Hb]. unfold handles_ok, select_bucket.
  case_bool_decide as E; simpl.
  - rewrite lookup_insert_eq. unfold open_w. split.
    + intros sp' h. destruct (decide (sp = sp')) as [<-|Hne].
      * rewrite lookup_insert_eq. intros [= <-]. split; [done|].
        rewrite lookup_insert_eq. by eexists.
      * rewrite lookup_insert_ne by done. intros Hh.
        destruct (Ha _ _ Hh) as [-> Hd]. split; [done|].
        rewrite lookup_insert_ne; [done|].
        intros Heq. by apply bucket_file_inj in Heq.
    + intros h [= <-]. exists sp. by rewrite lookup_insert_eq.
  - split; [done|]. intros h Hh. by exists sp.
Qed.

Lemma handles_ok_deliver bp text st :
  handles_ok bp st → handles_ok bp (deliver text st).
Proof.
  intros [Ha Hb]. unfold handles_ok, deliver.
  destruct (output_file st) as [f|] eqn:Hf; simpl; [|by rewrite Hf].
  split; [|by rewrite Hf]. intros sp h Hh.
  destruct (Ha _ _ Hh) as [-> [x Hx]]. split; [done|].
  rewrite lookup_write. case_decide; rewrite Hx; by eexists.
Qed.

Lemma handles_ok_loop bp lines st :
  handles_ok bp st → handles_ok bp (final (for_lines bp lines st)).
Proof.
  apply for_lines_preserves. apply loop_body_preserves.
  - intros n s H. exact H.
  - intros sp s. apply handles_ok_select_bucket.
  - intros text s. apply handles_ok_deliver.
Qed.

Lemma handles_ok_enter bp fname st : handles_ok bp (enter fname st).
Proof. split; simpl; [intros sp h; by rewrite lookup_empty|done]. Qed.

Lemma tracked_loop bp lines st :
  tracked st → tracked (final (for_lines bp lines st)).
Proof.
  apply for_lines_preserves. apply loop_body_preserves.
  - intros n s H. exact H.
  - intros sp s H. unfold tracked, select_bucket.
    case_bool_decide as E; simpl; [|exact H].
    intros path f. unfold open_w.
    destruct (decide (bucket_file bp sp = path)) as [<-|Hne].
    + intros _ _. exists sp. by rewrite lookup_insert_eq.
    + rewrite lookup_insert_ne by done. intros Hp Ho.
      destruct (H _ _ Hp Ho) as [sp' Hsp']. exists sp'.
      rewrite lookup_insert_ne; [done|]. intros <-. congruence.
  - intros text s H. unfold tracked, deliver.
    destruct (output_file s) as [h|]; simpl; [|exact H].
    intros path f. rewrite lookup_write. case_decide as Hh; [|apply H].
    destruct (disk s !! path) as [x|] eqn:Hx; [|done]. simpl.
    intros [= <-] Ho. by apply (H _ _ Hx).
Qed.

(** The closing loop closes the files of all handles and leaves the other
    files alone. *)
Lemma close_all_lookup (handles : gmap str str) d path :
  (close_all handles d !! path = d !! path
   ∨ close_all handles d !! path = closed_file <$> d !! path)
  ∧ (∀ sp, handles !! sp = Some path →
       close_all handles d !! path = closed_file <$> d !! path)
  ∧ ((∀ sp, handles !! sp ≠ Some path) →
       close_all handles d !! path = d !! path).
Proof.
  unfold close_all.
  apply (map_fold_weak_ind (fun r (m : gmap str str) =>
    (r !! path = d !! path ∨ r !! path = closed_file <$> d !! path)
    ∧ (∀ sp, m !! sp = Some path → r !! path = closed_file <$> d !! path)
    ∧ ((∀ sp, m !! sp ≠ Some path) → r !! path = d !! path))).
  - split_and!; [by left|by intros sp; rewrite lookup_empty|done].
  - intros i h m r Hi (H1 & H2 & H3). unfold close. rewrite lookup_alter.
    destruct (decide (h = path)) as [->|Hh].
    + assert (closed_file <$> r !! path = closed_file <$> d !! path) as E.
      { destruct H1 as [->| ->]; [done|]. by destruct (d !! path). }
      split_and!; [by right|done|].
      intros Hno. destruct (Hno i). by rewrite lookup_insert_eq.
    + split_and!; [done| |].
      * intros sp. destruct (decide (i = sp)) as [<-|Hne].
        -- rewrite lookup_insert_eq. congruence.
        -- rewrite lookup_insert_ne by done. apply H2.
      * intros Hno. apply H3. intros sp Hsp. apply (Hno sp).
        rewrite lookup_insert_ne; [done|]. intros <-. congruence.
Qed.

(** *** Two runs side by side *)

Lemma sim_select_bucket bp1 bp2 c1 c2 sp st1 st2 :
  sim bp1 bp2 c1 c2 st1 st2 →
  sim bp1 bp2 c1 c2 (select_bucket bp1 sp st1) (select_bucket bp2 sp st2).
Proof.
  intros [Hl (n & Hn1 & Hn2) Hh Ho Hd]. unfold select_bucket.
  destruct (Hh sp) as [[E1 E2]|[E1 E2]].
  - rewrite !bool_decide_eq_true_2 by done.
    split; simpl.
    + done.
    + exists (S n). lia.
    + intros sp'. destruct (decide (sp = sp')) as [<-|Hne].
      * right. by rewrite !lookup_insert_eq.
      * rewrite !lookup_insert_ne by done. apply Hh.
    + exists (Some sp). by rewrite !lookup_insert_eq.
    + intros sp'. unfold open_w. destruct (decide (sp = sp')) as [<-|Hne].
      * by rewrite !lookup_insert_eq.
      * rewrite !lookup_insert_ne; [apply Hd|..];
          intros Heq; by apply bucket_file_inj in Heq.
  - rewrite !bool_decide_eq_false_2 by congruence.
    split; simpl; [done|by exists n|done| |done].
    exists (Some sp). by rewrite E1, E2.
Qed.

Lemma sim_deliver bp1 bp2 c1 c2 text st1 st2 :
  sim bp1 bp2 c1 c2 st1 st2 →
  sim bp1 bp2 c1 c2 (deliver text st1) (deliver text st2).
Proof.
  intros [Hl Hn Hh (cur & Ho1 & Ho2) Hd]. unfold deliver.
  rewrite Ho1, Ho2. destruct cur as [sp|]; simpl.
  - split; simpl; [done|done|done|by exists (Some sp); rewrite Ho1, Ho2|].
    intros sp'. rewrite !lookup_write.
    destruct (decide (sp = sp')) as [<-|Hne].
    + rewrite !decide_True by done. by rewrite Hd.
    + rewrite !decide_False; [apply Hd|..];
        intros Heq; by apply bucket_file_inj in Heq.
  - split; simpl; [done|done|done|by exists None; rewrite Ho1, Ho2|done].
Qed.

Lemma sim_set_line_number bp1 bp2 c1 c2 n st1 st2 :
  sim bp1 bp2 c1 c2 st1 st2 →
  sim bp1 bp2 c1 c2 (set_line_number n st1) (set_line_number n st2).
Proof. intros [Hl Hn Hh Ho Hd]. by split. Qed.

Lemma sim_loop_body bp1 bp2 c1 c2 line st1 st2 :
  sim bp1 bp2 c1 c2 st1 st2 →
  sim_outcome bp1 bp2 c1 c2 (loop_body bp1 line st1) (loop_body bp2 line st2).
Proof.
  intros H. unfold loop_body. rewrite (sim_line_number _ _ _ _ _ _ H).
  pose proof (sim_set_line_number _ _ _ _ (S (line_number st2)) _ _ H) as H'.
  destruct (parse_transcription_line line) as [[speaker words]|e]; simpl;
    [|by split].
  destruct words as [[|c w]|]; simpl; try done.
  apply sim_deliver.
  destruct speaker as [[|? ?]|]; try done. by apply sim_select_bucket.
Qed.

Lemma sim_for_lines bp1 bp2 c1 c2 lines st1 st2 :
  sim bp1 bp2 c1 c2 st1 st2 →
  sim_outcome bp1 bp2 c1 c2
    (for_lines bp1 lines st1) (for_lines bp2 lines st2).
Proof.
  revert st1 st2. induction lines as [|l lines IH]; intros st1 st2 H;
    simpl; [done|].
  pose proof (sim_loop_body _ _ _ _ l _ _ H) as Hs.
  destruct (loop_body bp1 l st1), (loop_body bp2 l st2); simpl in Hs;
    try done.
  by apply IH.
Qed.

Lemma sim_close_all bp1 bp2 c1 c2 st1 st2 :
  sim bp1 bp2 c1 c2 st1 st2 →
  ∀ sp, close_all (file_handles st1) (disk st1) !! bucket_file bp1 sp
        = close_all (file_handles st2) (disk st2) !! bucket_file bp2 sp.
Proof.
  intros [Hl Hn Hh Ho Hd] sp.
  destruct (close_all_lookup (file_handles st1) (disk st1)
              (bucket_file bp1 sp)) as (_ & Hc1 & Hk1).
  destruct (close_all_lookup (file_handles st2) (disk st2)
              (bucket_file bp2 sp)) as (_ & Hc2 & Hk2).
  destruct (Hh sp) as [[E1 E2]|[E1 E2]].
  - rewrite Hk1, Hk2; [apply Hd|..]; intros sp' Hsp'.
    + destruct (Hh sp') as [[? ?]|[F1 F2]]; [congruence|].
      rewrite F2 in Hsp'. injection Hsp' as Heq.
      apply bucket_file_inj in Heq. congruence.
    + destruct (Hh sp') as [[? ?]|[F1 F2]]; [congruence|].
      rewrite F1 in Hsp'. injection Hsp' as Heq.
      apply bucket_file_inj in Heq. congruence.
  - rewrite (Hc1 _ E1), (Hc2 _ E2). by rewrite Hd.
Qed.

Lemma sim_process_transcription bp1 bp2 fname1 fname2 lines st1 st2 :
  (∀ sp, disk st1 !! bucket_file bp1 sp = disk st2 !! bucket_file bp2 sp) →
  sim_outcome bp1 bp2 (files_created st1) (files_created st2)
    (process_transcription bp1 fname1 lines st1)
    (process_transcription bp2 fname2 lines st2).
Proof.
  intros Hd. unfold process_transcription.
  assert (sim bp1 bp2 (files_created st1) (files_created st2)
            (enter fname1 st1) (enter fname2 st2)) as H0.
  { split; simpl; [done|exists 0; lia|by left|by exists None|done]. }
  pose proof (sim_for_lines _ _ _ _ lines _ _ H0) as Hs.
  destruct (for_lines bp1 lines (enter fname1 st1)) as [a|e a],
    (for_lines bp2 lines (enter fname2 st2)) as [b|e' b]; simpl in Hs;
    try done.
  simpl. pose proof (sim_close_all _ _ _ _ _ _ Hs) as Hc.
  destruct Hs as [Hl Hn Hh Ho _]. by split.
Qed.

(** *** Lines before the first speaker, and lines that classify *)

(** While no speaker is established, lines without a speaker leave the
    handles, the current output file and the disk as they are. *)
Lemma for_lines_no_speaker bp pre st :
  Forall (fun l => ∃ w, parse_transcription_line l = Ok (None, w)) pre →
  output_file st = None →
  ∃ st', for_lines bp pre st = Done st'
         ∧ output_file st' = None
         ∧ file_handles st' = file_handles st
         ∧ disk st' = disk st
         ∧ files_created st' = files_created st
         ∧ line_number st' = line_number st + length pre.
Proof.
  intros Hpre. revert st.
  induction Hpre as [|l pre [w Hl] _ IH]; intros st Hout; simpl.
  { exists st. split_and!; (done || lia). }
  pose proof (parse_view l) as V. rewrite Hl in V.
  inversion V as [| |text Hne|]; subst.
  - rewrite (loop_body_discard _ _ _ Hl).
    destruct (IH (set_line_number (S (line_number st)) st) Hout)
      as (st' & -> & ? & ? & ? & ? & Hn).
    simpl in Hn. exists st'. split_and!; (done || lia).
  - rewrite (loop_body_continuation _ _ _ _ Hl).
    unfold deliver. simpl. rewrite Hout.
    destruct (IH (print (Missed_speaker (S (line_number st)) text)
                    (set_line_number (S (line_number st)) st)) Hout)
      as (st' & -> & ? & ? & ? & ? & Hn).
    simpl in Hn. exists st'. split_and!; (done || lia).
Qed.

(** Messages are only ever added. *)
Lemma stdout_for_lines bp lines st :
  ∃ more, stdout (final (for_lines bp lines st)) = stdout st ++ more.
Proof.
  apply (for_lines_preserves bp
           (fun st' => ∃ more, stdout st' = stdout st ++ more)).
  - apply (loop_body_preserves bp
             (fun st' => ∃ more, stdout st' = stdout st ++ more)).
    + intros n s H. exact H.
    + intros sp s H. unfold select_bucket. by case_bool_decide.
    + intros text s [more H]. unfold deliver.
      destruct (output_file s); simpl; [by exists more|].
      exists (more ++ [Missed_speaker (line_number s) text]).
      by rewrite H, app_assoc.
  - exists []. by rewrite app_nil_r.
Qed.

Lemma stdout_process_transcription bp fname l1 l2 st st1 :
  for_lines bp l1 (enter fname st) = Done st1 →
  ∃ more,
    stdout (final (process_transcription bp fname (l1 ++ l2) st))
    = stdout st1 ++ more.
Proof.
  intros H1. unfold process_transcription. rewrite for_lines_app, H1.
  destruct (stdout_for_lines bp l2 st1) as [more Hm]. exists more.
  by destruct (for_lines bp l2 st1).
Qed.

(** When every line classifies, the loop runs to its end. *)
Lemma for_lines_Done bp lines st :
  Forall (fun l => ∃ r, parse_transcription_line l = Ok r) lines →
  ∃ st', for_lines bp lines st = Done st'.
Proof.
  intros H. revert st. induction H as [|l lines [r Hl] _ IH]; intros st;
    simpl; [by eexists|].
  unfold loop_body. rewrite Hl. destruct r as [speaker [[|c w]|]]; apply IH.
Qed.

End WriterFacts.

(** ** The bucket writer: claims *)

(** C6. Whatever the bucket path, the file name and the parser's counters,
    processing ["SMITH: Hello."], ["Nice to see you."], ["JONES: Hi Smith."]
    into a fresh output location completes, leaves ["Hello."] and
    ["Nice to see you."] in the bucket of SMITH and ["Hi Smith."] in the
    bucket of JONES (each line followed by [\r\n]), creates no other
    bucket, and counts two buckets created. *)
Theorem smith_jones_buckets (bp fname : str) (st0 : state) :
  fresh bp (disk st0) →
  ∃ st,
    process_transcription bp fname
      [lit "SMITH: Hello."; lit "Nice to see you."; lit "JONES: Hi Smith."]
      st0 = Done st
    ∧ disk st !! bucket_file bp (lit "SMITH")
      = Some {| content := lit "Hello." ++ crlf ++ lit "Nice to see you."
                           ++ crlf;
                is_open := false |}
    ∧ disk st !! bucket_file bp (lit "JONES")
      = Some {| content := lit "Hi Smith." ++ crlf; is_open := false |}
    ∧ (∀ sp, sp ≠ lit "SMITH" → sp ≠ lit "JONES" →
         disk st !! bucket_file bp sp = None)
    ∧ files_created st = files_created st0 + 2.
Proof.
  intros Hfresh.
  set (lines := [lit "SMITH: Hello."; lit "Nice to see you.";
                 lit "JONES: Hi Smith."]).
  assert (∀ sp, disk st0 !! bucket_file bp sp
                = disk initial !! bucket_file (lit "b") sp) as Hd.
  { intros sp. rewrite Hfresh. simpl. by rewrite lookup_empty. }
  pose proof (sim_process_transcription bp (lit "b") fname fname lines
                st0 initial Hd) as Hs.
  destruct (process_transcription (lit "b") fname lines initial)
    as [stc|e stc] eqn:Ec.
  2:{ vm_compute in Ec. discriminate. }
  apply (f_equal final) in Ec. simpl in Ec.
  destruct (process_transcription bp fname lines st0) as [st|e st];
    [|done].
  simpl in Hs. destruct Hs as [_ (n & Hn1 & Hn2) _ _ Hdisk].
  assert (disk stc
          = <[bucket_file (lit "b") (lit "SMITH") :=
                {| content := lit "Hello." ++ crlf
                              ++ lit "Nice to see you." ++ crlf;
                   is_open := false |}]>
              (<[bucket_file (lit "b") (lit "JONES") :=
                   {| content := lit "Hi Smith." ++ crlf;
                      is_open := false |}]> ∅)) as Hstc.
  { rewrite <- Ec. vm_compute. reflexivity. }
  assert (files_created stc = 2) as Hc.
  { rewrite <- Ec. vm_compute. reflexivity. }
  exists st. split_and!; [done| | | |lia].
  - rewrite Hdisk, Hstc. by rewrite lookup_insert_eq.
  - rewrite Hdisk, Hstc. rewrite lookup_insert_ne, lookup_insert_eq; [done|].
    intros Heq. by apply bucket_file_inj in Heq.
  - intros sp H1 H2. rewrite Hdisk, Hstc.
    rewrite !lookup_insert_ne, lookup_empty; [done|..];
      intros Heq; by apply bucket_file_inj in Heq.
Qed.

Lemma smith_jones_buckets_witness :
  fresh (lit "buckets/speech") (disk initial)
  ∧ ∃ st,
      process_transcription (lit "buckets/speech") (lit "speech.txt")
        [lit "SMITH: Hello."; lit "Nice to see you."; lit "JONES: Hi Smith."]
        initial = Done st
      ∧ disk st !! bucket_file (lit "buckets/speech") (lit "SMITH")
        = Some {| content := lit "Hello." ++ crlf ++ lit "Nice to see you."
                             ++ crlf;
                  is_open := false |}
      ∧ disk st !! bucket_file (lit "buckets/speech") (lit "JONES")
        = Some {| content := lit "Hi Smith." ++ crlf; is_open := false |}
      ∧ (∀ sp, sp ≠ lit "SMITH" → sp ≠ lit "JONES" →
           disk st !! bucket_file (lit "buckets/speech") sp = None)
      ∧ files_created st = files_created initial + 2.
Proof.
  assert (fresh (lit "buckets/speech") (disk initial)) as H
    by (intros sp; apply lookup_empty).
  split; [exact H|].
  exact (smith_jones_buckets (lit "buckets/speech") (lit "speech.txt")
           initial H).
Defined.

(** C7. A line classified as a continuation while no speaker has been
    established (every line before it was discarded or was such a
    continuation itself) makes the loop print the warning with its line
    number and its text, and leaves the disk, the handles and the current
    output file untouched; the warning is still there when processing
    ends. In particular, processing ["Hello there."] alone prints one
    warning for line 1 and writes nothing. *)
Theorem continuation_before_speaker (bp fname : str) :
  (∀ pre line text post st0,
     Forall (fun l => ∃ w, parse_transcription_line l = Ok (None, w)) pre →
     parse_transcription_line line = Ok (None, Some text) →
     ∃ st1,
       for_lines bp (pre ++ [line]) (enter fname st0) = Done st1
       ∧ last (stdout st1) = Some (Missed_speaker (S (length pre)) text)
       ∧ disk st1 = disk st0
       ∧ file_handles st1 = ∅
       ∧ output_file st1 = None
       ∧ files_created st1 = files_created st0
       ∧ Missed_speaker (S (length pre)) text
         ∈ stdout (final (process_transcription bp fname
                            (pre ++ line :: post) st0)))
  ∧ process_transcription bp fname [lit "Hello there."] initial
    = Done {| files_processed := 1; files_created := 0; file_handles := ∅;
              output_file := None; line_number := 1; disk := ∅;
              stdout := [Processing_file fname;
                         Missed_speaker 1 (lit "Hello there.")] |}.
Proof.
  split; [|vm_compute; reflexivity].
  intros pre line text post st0 Hpre Hline.
  destruct (for_lines_no_speaker bp pre (enter fname st0) Hpre eq_refl)
    as (st' & Hrun & Hout & Hfh & Hdisk & Hcreated & Hn).
  simpl in Hfh, Hdisk, Hcreated, Hn.
  set (st1 := print (Missed_speaker (S (length pre)) text)
                (set_line_number (S (length pre)) st')).
  assert (for_lines bp (pre ++ [line]) (enter fname st0) = Done st1) as H1.
  { rewrite for_lines_app, Hrun. simpl.
    rewrite (loop_body_continuation _ _ _ _ Hline).
    unfold deliver. simpl. by rewrite Hout, Hn. }
  exists st1. split_and!; try done.
  - simpl. by rewrite last_snoc.
  - destruct (stdout_process_transcription bp fname (pre ++ [line]) post
                st0 st1 H1) as [more Hm].
    rewrite <- app_assoc in Hm. simpl in Hm. rewrite Hm. simpl.
    rewrite !elem_of_app. left. right. apply elem_of_cons. by left.
Qed.

Lemma continuation_before_speaker_witness :
  Forall (fun l => ∃ w, parse_transcription_line l = Ok (None, w))
    [lit "[applause]"]
  ∧ parse_transcription_line (lit "Hello there.")
    = Ok (None, Some (lit "Hello there."))
  ∧ ∃ st1,
      for_lines (lit "buckets/speech")
        ([lit "[applause]"] ++ [lit "Hello there."])
        (enter (lit "speech.txt") initial) = Done st1
      ∧ last (stdout st1) = Some (Missed_speaker 2 (lit "Hello there."))
      ∧ disk st1 = disk initial
      ∧ file_handles st1 = ∅
      ∧ output_file st1 = None
      ∧ files_created st1 = files_created initial
      ∧ Missed_speaker 2 (lit "Hello there.")
        ∈ stdout (final (process_transcription (lit "buckets/speech")
                           (lit "speech.txt")
                           ([lit "[applause]"]
                            ++ lit "Hello there." :: [lit "SMITH: Hi."])
                           initial)).
Proof.
  assert (Forall (fun l => ∃ w, parse_transcription_line l = Ok (None, w))
            [lit "[applause]"]) as H1.
  { constructor; [|constructor]. exists None. vm_compute. reflexivity. }
  assert (parse_transcription_line (lit "Hello there.")
          = Ok (None, Some (lit "Hello there."))) as H2
    by (vm_compute; reflexivity).
  split; [exact H1|]. split; [exact H2|].
  exact (proj1 (continuation_before_speaker (lit "buckets/speech")
                  (lit "speech.txt"))
           [lit "[applause]"] (lit "Hello there.") (lit "Hello there.")
           [lit "SMITH: Hi."] initial H1 H2).
Defined.

(** C8 as stated fails: the handles are closed by a loop that follows the
    [with] block, not by a [finally]; when a line raises, the exception
    leaves [process_transcription] before that loop and the bucket of SMITH
    stays open. *)
Lemma sinks_left_open_on_error :
  no_open_files (disk initial)
  ∧ (∃ st, process_transcription (lit "buckets/speech") (lit "speech.txt")
             [lit "SMITH: Hello."; lit "a : b"] initial
           = Aborted IndexError st
           ∧ ¬ no_open_files (disk st)).
Proof.
  split; [intros path f Hf; simpl in Hf; by rewrite lookup_empty in Hf|].
  eexists. split; [vm_compute; reflexivity|].
  intros H.
  specialize (H (bucket_file (lit "buckets/speech") (lit "SMITH"))
                {| content := lit "Hello." ++ crlf; is_open := true |}).
  assert (true = false) as E; [|discriminate E].
  apply H. vm_compute. reflexivity.
Qed.

(** C8 (amended). When no line of the transcript raises, processing
    completes, every handle opened for a speaker is that of an existing,
    closed file, and no file object is left open. *)
Theorem sinks_closed_on_completion (bp fname : str) (lines : list str)
    (st0 : state) :
  no_open_files (disk st0) →
  Forall (fun l => ∃ r, parse_transcription_line l = Ok r) lines →
  ∃ st,
    process_transcription bp fname lines st0 = Done st
    ∧ (∀ sp h, file_handles st !! sp = Some h →
         ∃ f, disk st !! h = Some f ∧ is_open f = false)
    ∧ no_open_files (disk st).
Proof.
  intros Hclosed Hlines. unfold process_transcription.
  pose proof (handles_ok_loop bp lines _ (handles_ok_enter bp fname st0))
    as Hok.
  assert (tracked (enter fname st0)) as Ht0.
  { intros path f Hf Ho. simpl in Hf. rewrite (Hclosed _ _ Hf) in Ho.
    discriminate. }
  pose proof (tracked_loop bp lines _ Ht0) as Ht.
  destruct (for_lines_Done bp lines (enter fname st0) Hlines) as [st' E].
  rewrite E in *. simpl in Hok, Ht. eexists. split; [reflexivity|].
  simpl. split.
  - intros sp h Hh. destruct Hok as [Ha _].
    destruct (Ha _ _ Hh) as [_ [x Hx]].
    destruct (close_all_lookup (file_handles st') (disk st') h)
      as (_ & Hc & _).
    exists (closed_file x). by rewrite (Hc _ Hh), Hx.
  - intros path f Hf.
    destruct (close_all_lookup (file_handles st') (disk st') path)
      as ([Hsame|Hc] & Hc' & _).
    + rewrite Hsame in Hf. destruct (is_open f) eqn:Ho; [|done].
      destruct (Ht _ _ Hf Ho) as [sp Hsp].
      rewrite (Hc' _ Hsp) in Hsame.
      rewrite Hf in Hsame. simpl in Hsame. injection Hsame as Hsame.
      by rewrite <- Hsame in Ho.
    + rewrite Hc in Hf. destruct (disk st' !! path) as [x|]; [|done].
      by injection Hf as <-.
Qed.

Lemma sinks_closed_on_completion_witness :
  no_open_files (disk initial)
  ∧ Forall (fun l => ∃ r, parse_transcription_line l = Ok r)
      [lit "SMITH: Hello."; lit "JONES: Hi Smith."]
  ∧ ∃ st,
      process_transcription (lit "buckets/speech") (lit "speech.txt")
        [lit "SMITH: Hello."; lit "JONES: Hi Smith."] initial = Done st
      ∧ (∀ sp h, file_handles st !! sp = Some h →
           ∃ f, disk st !! h = Some f ∧ is_open f = false)
      ∧ no_open_files (disk st).
Proof.
  assert (no_open_files (disk initial)) as H1
    by (intros path f Hf; simpl in Hf; by rewrite lookup_empty in Hf).
  assert (Forall (fun l => ∃ r, parse_transcription_line l = Ok r)
            [lit "SMITH: Hello."; lit "JONES: Hi Smith."]) as H2.
  { repeat constructor; eexists; vm_compute; reflexivity. }
  split; [exact H1|]. split; [exact H2|].
  exact (sinks_closed_on_completion (lit "buckets/speech") (lit "speech.txt")
           _ initial H1 H2).
Defined.

(** C9. Two runs over the same lines, each into a fresh output location
    (whatever the two bucket paths, file names and parser counters), end
    the same way, and for every speaker the bucket file of the one run
    exists exactly when that of the other does and holds the same bytes. *)
Theorem bucket_writer_deterministic (bp1 bp2 fname1 fname2 : str)
    (lines : list str) (st1 st2 : state) :
  fresh bp1 (disk st1) →
  fresh bp2 (disk st2) →
  let o1 := process_transcription bp1 fname1 lines st1 in
  let o2 := process_transcription bp2 fname2 lines st2 in
  (∀ sp, disk (final o1) !! bucket_file bp1 sp
         = disk (final o2) !! bucket_file bp2 sp)
  ∧ ((∃ a b, o1 = Done a ∧ o2 = Done b)
     ∨ (∃ e a b, o1 = Aborted e a ∧ o2 = Aborted e b)).
Proof.
  intros H1 H2 o1 o2.
  assert (∀ sp, disk st1 !! bucket_file bp1 sp
                = disk st2 !! bucket_file bp2 sp) as Hd
    by (intros sp; by rewrite H1, H2).
  pose proof (sim_process_transcription bp1 bp2 fname1 fname2 lines
                st1 st2 Hd) as Hs.
  fold o1 o2 in Hs.
  destruct o1 as [a|e a], o2 as [b|e' b]; simpl in Hs; try done.
  - split; [apply Hs|]. left. by exists a, b.
  - destruct Hs as [<- Hs]. split; [apply Hs|]. right. by exists e, a, b.
Qed.

Lemma bucket_writer_deterministic_witness :
  fresh (lit "first/speech") (disk initial)
  ∧ fresh (lit "second/speech") (disk initial)
  ∧ let o1 := process_transcription (lit "first/speech") (lit "speech.txt")
                [lit "SMITH: Hello."; lit "Nice to see you."] initial in
    let o2 := process_transcription (lit "second/speech") (lit "speech.txt")
                [lit "SMITH: Hello."; lit "Nice to see you."] initial in
    (∀ sp, disk (final o1) !! bucket_file (lit "first/speech") sp
           = disk (final o2) !! bucket_file (lit "second/speech") sp)
    ∧ ((∃ a b, o1 = Done a ∧ o2 = Done b)
       ∨ (∃ e a b, o1 = Aborted e a ∧ o2 = Aborted e b)).
Proof.
  assert (∀ bp, fresh bp (disk initial)) as H
    by (intros bp sp; apply lookup_empty).
  split; [apply H|]. split; [apply H|].
  exact (bucket_writer_deterministic (lit "first/speech")
           (lit "second/speech") (lit "speech.txt") (lit "speech.txt")
           [lit "SMITH: Hello."; lit "Nice to see you."] initial initial
           (H _) (H _)).
Defined.

(** C10. When the classifier names a speaker, the words that come with it
    are a non-empty string; and wherever in a transcript such a line
    stands, the loop body makes that speaker's bucket the current output
    file and appends the words, followed by [\r\n], to it. *)
Theorem new_speaker_writes (line sp : str) (w : option str) :
  parse_transcription_line line = Ok (Some sp, w) →
  ∃ text,
    w = Some text
    ∧ text ≠ []
    ∧ ∀ bp fname pre st0 st1,
        for_lines bp pre (enter fname st0) = Done st1 →
        ∃ st2 old,
          loop_body bp line st1 = Done st2
          ∧ output_file st2 = Some (bucket_file bp sp)
          ∧ content <$> disk st2 !! bucket_file bp sp
            = Some (old ++ text ++ crlf).
Proof.
  intros Hline. pose proof (parse_view line) as V. rewrite Hline in V.
  inversion V as [| | |? text Hsp Hne]; subst.
  exists text. split_and!; [done..|].
  intros bp fname pre st0 st1 Hrun.
  pose proof (handles_ok_loop bp pre _ (handles_ok_enter bp fname st0))
    as Hok.
  rewrite Hrun in Hok. simpl in Hok.
  rewrite (loop_body_new_speaker _ _ _ _ _ Hline).
  set (st' := select_bucket bp sp (set_line_number (S (line_number st1)) st1)).
  assert (handles_ok bp st') as [Ha Hb]
    by (by apply handles_ok_select_bucket).
  assert (output_file st' = Some (bucket_file bp sp)) as Hout.
  { apply select_bucket_output. intros h Hh.
    destruct Hok as [Hok _]. by destruct (Hok _ _ Hh). }
  destruct (Hb _ Hout) as [sp' Hsp'].
  destruct (Ha _ _ Hsp') as [_ [x Hx]].
  clearbody st'.
  exists (deliver text st'), (content x). split; [done|].
  unfold deliver. rewrite Hout. simpl. split; [done|].
  rewrite lookup_write, decide_True, Hx by done. simpl.
  by rewrite app_assoc.
Qed.

Lemma new_speaker_writes_witness :
  parse_transcription_line (lit "SMITH [shouting]: Get back!")
  = Ok (Some (lit "SMITH"), Some (lit "Get back!"))
  ∧ ∃ text,
      Some (lit "Get back!") = Some text
      ∧ text ≠ []
      ∧ ∀ bp fname pre st0 st1,
          for_lines bp pre (enter fname st0) = Done st1 →
          ∃ st2 old,
            loop_body bp (lit "SMITH [shouting]: Get back!") st1 = Done st2
            ∧ output_file st2 = Some (bucket_file bp (lit "SMITH"))
            ∧ content <$> disk st2 !! bucket_file bp (lit "SMITH")
              = Some (old ++ text ++ crlf).
Proof.
  assert (parse_transcription_line (lit "SMITH [shouting]: Get back!")
          = Ok (Some (lit "SMITH"), Some (lit "Get back!"))) as H
    by (vm_compute; reflexivity).
  split; [exact H|]. exact (new_speaker_writes _ _ _ H).
Defined.

(** * Further properties *)

(** ** More facts about the string operations *)

Section MoreStringFacts.
Implicit Types (s t sub pre rest ws : str) (c d : ascii).

(** The first occurrence of a string that starts with [c], behind a prefix
    without [c]. *)
Lemma find_after_prefix c sub pre rest :
  c ∉ pre → find (c :: sub) (pre ++ c :: sub ++ rest) = Some (length pre).
Proof.
  induction pre as [|b pre IH]; intros Hc; simpl.
  - by rewrite Ascii.eqb_refl, startswith_app.
  - apply not_elem_of_cons in Hc as [Hcb Hc].
    destruct (Ascii.eqb_spec c b) as [?|_]; [done|].
    simpl. by rewrite (IH Hc).
Qed.

Lemma find_char_Some c s k :
  find [c] s = Some k ↔
  ∃ pre rest, s = pre ++ c :: rest ∧ (c ∉ pre) ∧ length pre = k.
Proof.
  split.
  - revert k. induction s as [|b s IH]; intros k; simpl; [done|].
    destruct (Ascii.eqb_spec c b) as [->|Hcb]; simpl.
    + intros [= <-]. exists [], s. split_and!; [done| |done].
      apply not_elem_of_nil.
    + destruct (find [c] s) as [j|]; [|done]. simpl. intros [= <-].
      destruct (IH j eq_refl) as (pre & rest & -> & Hpre & <-).
      exists (b :: pre), rest. split_and!; [done| |done].
      apply not_elem_of_cons. by split.
  - intros (pre & rest & -> & Hpre & <-). by apply find_char.
Qed.

Lemma find_char_None c s : find [c] s = None ↔ c ∉ s.
Proof.
  split.
  - intros Hf Hin. apply contains_char in Hin. unfold contains in Hin.
    rewrite Hf in Hin. apply bool_decide_eq_true in Hin. by destruct Hin.
  - intros Hc. destruct (find [c] s) as [k|] eqn:E; [|done].
    apply find_char_Some in E as (pre & rest & -> & _). set_solver.
Qed.

(** A two-character delimiter does not occur in a string that holds its
    first character only at the very end. *)
Lemma find_delimiter_at_end c d sub pre :
  c ∉ pre → find (c :: d :: sub) (pre ++ [c]) = None.
Proof.
  induction pre as [|b pre IH]; intros Hc; simpl.
  - by rewrite Ascii.eqb_refl.
  - apply not_elem_of_cons in Hc as [Hcb Hc].
    destruct (Ascii.eqb_spec c b) as [?|_]; [done|].
    simpl. by rewrite (IH Hc).
Qed.

Lemma contains_find sub s : contains sub s = true ↔ is_Some (find sub s).
Proof. unfold contains. apply bool_decide_eq_true. Qed.

Lemma contains_find_None sub s : find sub s = None → contains sub s = false.
Proof.
  intros H. unfold contains. rewrite H. apply bool_decide_eq_false.
  by intros [? ?].
Qed.

(** Stripping a string padded with whitespace. *)
Lemma lstrip_whitespace ws s :
  Forall (fun c => Py_UNICODE_ISSPACE c = true) ws →
  lstrip (ws ++ s) = lstrip s.
Proof. induction 1 as [|c ws Hc _ IH]; simpl; [done|]. by rewrite Hc. Qed.

Lemma lstrip_id s :
  (∀ c, head s = Some c → Py_UNICODE_ISSPACE c = false) → lstrip s = s.
Proof. destruct s as [|b s]; simpl; [done|]. intros H. by rewrite (H b). Qed.

Lemma strip_padded ws1 s ws2 :
  Forall (fun c => Py_UNICODE_ISSPACE c = true) ws1 →
  Forall (fun c => Py_UNICODE_ISSPACE c = true) ws2 →
  (∀ c, head s = Some c → Py_UNICODE_ISSPACE c = false) →
  (∀ c, last s = Some c → Py_UNICODE_ISSPACE c = false) →
  strip (ws1 ++ s ++ ws2) = s.
Proof.
  intros H1 H2 Hhead Hlast. unfold strip. rewrite (lstrip_whitespace _ _ H1).
  destruct s as [|b s].
  { simpl. rewrite <- (app_nil_r ws2), (lstrip_whitespace _ _ H2). done. }
  rewrite lstrip_id.
  2:{ intros c Hc. apply Hhead. by rewrite head_app in Hc. }
  unfold rstrip. rewrite reverse_app, lstrip_whitespace.
  2:{ apply Forall_forall. intros c Hc. rewrite elem_of_reverse in Hc.
      by apply (proj1 (Forall_forall _ _) H2). }
  rewrite lstrip_id; [apply reverse_involutive|].
  intros c Hc. apply Hlast. by rewrite <- head_reverse.
Qed.

(** Where the first occurrence of a character can stand. *)
Lemma first_occurrence_le c l1 l2 p t :
  c ∉ l1 → l1 ++ c :: l2 = p ++ c :: t → length l1 ≤ length p.
Proof.
  intros Hc E. destruct (decide (length l1 ≤ length p)) as [|Hlt]; [done|].
  exfalso. apply Hc.
  assert ((l1 ++ c :: l2) !! length p = Some c) as Hl
    by (rewrite E; apply list_lookup_middle; done).
  rewrite lookup_app_l in Hl by lia.
  apply list_elem_of_lookup. by exists (length p).
Qed.

End MoreStringFacts.

(** ** More facts about the classifier *)

Section MoreClassifierFacts.
Implicit Types (s t line name words ann pre rest ws : str) (c : ascii).

(** On U+0000..U+00FF every letter is uppercase or lowercase. *)
Lemma alpha_not_lower c :
  Py_UNICODE_ISALPHA c = true → Py_UNICODE_ISLOWER c = false →
  Py_UNICODE_ISUPPER c = true.
Proof.
  destruct c as [[] [] [] [] [] [] [] []]; vm_compute; congruence.
Qed.

Lemma upper_alpha_not_lower c :
  Py_UNICODE_ISUPPER c = true →
  Py_UNICODE_ISALPHA c = true ∧ Py_UNICODE_ISLOWER c = false.
Proof.
  destruct c as [[] [] [] [] [] [] [] []]; vm_compute; intros; split;
    congruence.
Qed.

(** A speaker name is made of uppercase letters and apostrophes. *)
Lemma speaker_name_chars s :
  is_speaker_name s = true →
  s ≠ [] ∧ ∀ c, c ∈ s → Py_UNICODE_ISUPPER c = true ∨ c = "'"%char.
Proof.
  intros H. split; [by apply is_speaker_name_nonempty|].
  apply is_speaker_name_true in H as [Hup Hal].
  apply isupper_true in Hup as [Hlow _].
  intros c Hc. destruct Hal as [Ha|[_ Ha]].
  - left. apply isalpha_true in Ha as [_ Ha]. apply alpha_not_lower; auto.
  - destruct (decide (c = "'"%char)) as [->|Hne]; [by right|left].
    apply isalpha_true in Ha as [_ Ha]. apply alpha_not_lower; [|auto].
    apply Ha. unfold remove_char. by apply list_elem_of_filter.
Qed.

Lemma speaker_name_lacks c s :
  is_speaker_name s = true → Py_UNICODE_ISUPPER c = false →
  c ≠ "'"%char → c ∉ s.
Proof.
  intros H Hu Hq Hin. apply speaker_name_chars in H as [_ H].
  destruct (H c Hin); congruence.
Qed.

Lemma not_speaker_name_with c s :
  c ∈ s → Py_UNICODE_ISUPPER c = false → c ≠ "'"%char →
  is_speaker_name s = false.
Proof.
  intros Hin Hu Hq. destruct (is_speaker_name s) eqn:E; [|done].
  by destruct (speaker_name_lacks c s E Hu Hq).
Qed.

(** The annotation test, evaluated. *)
Lemma is_speaker_annotated_no_space s :
  (" "%char ∉ s) → is_speaker_annotated s = Ok None.
Proof.
  intros H. unfold is_speaker_annotated. change (lit " ") with [" "%char].
  destruct (contains [" "%char] s) eqn:E; [|done].
  by apply contains_char in E.
Qed.

Lemma is_speaker_annotated_eq pre rest :
  (" "%char ∉ pre) →
  is_speaker_annotated (pre ++ " "%char :: rest)
  = match head rest, last (pre ++ " "%char :: rest) with
    | Some o, Some e =>
        Ok (Some (((o =? "(")%char || (o =? "[")%char)
                  && ((e =? ")")%char || (e =? "]")%char)))
    | _, _ => Raise IndexError
    end.
Proof.
  intros Hpre. unfold is_speaker_annotated, index.
  change (lit " ") with [" "%char].
  assert (contains [" "%char] (pre ++ " "%char :: rest) = true) as ->
    by (apply contains_char; set_solver).
  rewrite (find_char _ _ _ Hpre). simpl.
  replace (Z.of_nat (length pre) + 1)%Z with (Z.of_nat (S (length pre)))
    by lia.
  rewrite getitem_nat, getitem_last.
  rewrite lookup_app_r by lia.
  replace (S (length pre) - length pre) with 1 by lia. simpl.
  rewrite <- head_lookup.
  destruct (head rest) as [o|]; [|done]. simpl.
  destruct (last (pre ++ " "%char :: rest)) as [e|]; [|done]. simpl.
  by destruct ((o =? "(")%char || (o =? "[")%char),
    ((e =? ")")%char || (e =? "]")%char).
Qed.

(** The classifier, once the action test and the membership tests are
    replaced by what they compute. *)
Lemma parse_transcription_line_eq line :
  parse_transcription_line line
  = let L := strip line in
    if bool_decide (L = [] ∨ wrapped L) then Ok (None, None)
    else
      match find (lit ": ") L with
      | None => Ok (None, Some L)
      | Some i =>
          match find (lit " ") L with
          | None => Raise ValueError
          | Some k =>
              if negb (i =? 0) then
                if is_speaker_name (take i L) then
                  Ok (Some (take i L), Some (drop (i + 2) L))
                else if k <? i then
                  match is_speaker_annotated (take i L) with
                  | Raise e => Raise e
                  | Ok annotated =>
                      if truthy annotated then
                        if is_speaker_name (take k L) then
                          Ok (Some (take k L), Some (drop (i + 2) L))
                        else Ok (None, Some L)
                      else Ok (None, Some L)
                  end
                else Ok (None, Some L)
              else Ok (None, Some L)
          end
      end.
Proof.
  unfold parse_transcription_line. rewrite is_action_Ok. simpl.
  case_bool_decide as Hact; [done|].
  unfold index. destruct (find (lit ": ") (strip line)) as [i|] eqn:Hi.
  2:{ by rewrite (contains_find_None _ _ Hi). }
  assert (contains (lit ": ") (strip line) = true) as ->
    by (apply contains_find; by rewrite Hi).
  destruct (find (lit " ") (strip line)) as [k|]; [|done]. simpl.
  destruct (negb (i =? 0)); [|done].
  destruct (is_speaker_name (take i (strip line))); [done|].
  destruct (k <? i); [|done].
  by destruct (is_speaker_annotated (take i (strip line))).
Qed.

(** Where [": "] occurs there is a space, so the search for the first
    space succeeds, at the latest right after the colon. *)
Lemma find_space_of_delimiter s i :
  find (lit ": ") s = Some i →
  ∃ k, find (lit " ") s = Some k ∧ k ≤ S i.
Proof.
  intros Hi. destruct (find_Some _ _ _ Hi) as (t & Ht & Hle).
  assert (s = (take i s ++ [":"%char]) ++ " "%char :: t) as Hs.
  { rewrite <- (take_drop i s) at 1. rewrite Ht, <- app_assoc. done. }
  assert (" "%char ∈ s) as Hin by (rewrite Hs; set_solver).
  apply list_elem_of_split_l in Hin as (l1 & l2 & E & Hl1).
  exists (length l1). split.
  - rewrite E. change (lit " ") with [" "%char]. by apply find_char.
  - rewrite E in Hs. apply first_occurrence_le in Hs; [|done].
    rewrite length_app, length_take in Hs. simpl in Hs. lia.
Qed.

End MoreClassifierFacts.

Section MoreClassifierFacts2.
Implicit Types (s t line name words ann pre rest ws : str) (c : ascii).

Lemma upper_or_apostrophe_not_space c :
  Py_UNICODE_ISUPPER c = true ∨ c = "'"%char → Py_UNICODE_ISSPACE c = false.
Proof.
  intros [H| ->]; [|done]. revert H.
  destruct c as [[] [] [] [] [] [] [] []]; vm_compute; congruence.
Qed.

(** A string that starts with a speaker name is not stripped at the left
    and is not an action. *)
Lemma speaker_name_head name rest c :
  is_speaker_name name = true → head (name ++ rest) = Some c →
  Py_UNICODE_ISUPPER c = true ∨ c = "'"%char.
Proof.
  intros H Hc. apply speaker_name_chars in H as [Hne H].
  destruct name as [|b name]; [done|]. simpl in Hc. injection Hc as <-.
  apply H. by left.
Qed.

Lemma speaker_name_not_wrapped name rest :
  is_speaker_name name = true → ¬ wrapped (name ++ rest).
Proof.
  intros H [[Hh _]|[Hh _]];
    by destruct (speaker_name_head _ _ _ H Hh) as [?| ?].
Qed.

Lemma not_action_speaker name rest :
  is_speaker_name name = true →
  bool_decide (name ++ rest = [] ∨ wrapped (name ++ rest)) = false.
Proof.
  intros H. apply bool_decide_eq_false. intros [Hnil|Hw].
  - apply app_eq_nil in Hnil as [-> _]. done.
  - by apply (speaker_name_not_wrapped name rest H).
Qed.

End MoreClassifierFacts2.

(** ** The classifier: further theorems *)

(** X1. A line is discarded exactly when its stripped form is empty or its
    first and last characters are a matching pair of brackets or
    parentheses; nothing between the two is looked at. *)
Theorem discard_iff (line : str) :
  parse_transcription_line line = Ok (None, None) ↔
  strip line = [] ∨ wrapped (strip line).
Proof.
  rewrite parse_transcription_line_eq. cbv zeta.
  case_bool_decide as Hact; [done|].
  split; [|done]. intros H. exfalso.
  destruct (find (lit ": ") (strip line)) as [i|]; [|done].
  destruct (find (lit " ") (strip line)) as [k|]; [|done].
  destruct (negb (i =? 0)); [|done].
  destruct (is_speaker_name (take i (strip line))); [done|].
  destruct (k <? i); [|done].
  destruct (is_speaker_annotated (take i (strip line))) as [a|]; [|done].
  destruct (truthy a); [|done].
  by destruct (is_speaker_name (take k (strip line))).
Qed.

(** X2. The annotation test returns [None] exactly when the token holds no
    space, and raises exactly when the first space of the token is its
    last character; the exception is then [IndexError]. *)
Theorem is_speaker_annotated_outcomes (speaker : str) :
  (is_speaker_annotated speaker = Ok None ↔ " "%char ∉ speaker)
  ∧ (∀ e, is_speaker_annotated speaker = Raise e ↔
          e = IndexError
          ∧ ∃ pre, speaker = pre ++ [" "%char] ∧ " "%char ∉ pre).
Proof.
  destruct (decide (" "%char ∈ speaker)) as [Hin|Hout].
  - apply list_elem_of_split_l in Hin as (pre & rest & -> & Hpre).
    rewrite (is_speaker_annotated_eq _ _ Hpre).
    assert (is_Some (last (pre ++ " "%char :: rest))) as [z Hz].
    { apply last_is_Some. by destruct pre. }
    rewrite Hz. split.
    + split; [|set_solver]. by destruct (head rest).
    + intros e. destruct rest as [|o rest]; simpl.
      * split; [intros [= <-]; split; [done|by exists pre]|].
        by intros [-> _].
      * split; [done|]. intros [_ (pre' & E & Hpre')].
        change (pre ++ " "%char :: o :: rest = pre' ++ " "%char :: [])
          in E.
        by destruct (first_split_unique _ _ _ _ _ Hpre Hpre' E).
  - rewrite (is_speaker_annotated_no_space _ Hout). split; [done|].
    intros e. split; [done|]. intros [_ (pre & -> & _)]. set_solver.
Qed.

(** X3. The classifier raises exactly on the lines that are not discarded
    and whose first space stands immediately before their first [": "]
    (as in ["Note : this"]); the exception is [IndexError]. *)
Theorem parse_transcription_line_raises_iff (line : str) (e : exn) :
  parse_transcription_line line = Raise e ↔
  e = IndexError
  ∧ ¬ (strip line = [] ∨ wrapped (strip line))
  ∧ ∃ i, find (lit ": ") (strip line) = Some (S i)
         ∧ find (lit " ") (strip line) = Some i.
Proof.
  rewrite parse_transcription_line_eq. cbv zeta.
  set (L := strip line).
  case_bool_decide as Hact; [by split; [|intros (_ & ? & _)]|].
  destruct (find (lit ": ") L) as [i|] eqn:Hi.
  2:{ split; [done|]. by intros (_ & _ & j & ? & _). }
  destruct (find_space_of_delimiter _ _ Hi) as (k & Hk & Hki).
  rewrite Hk.
  destruct (find_Some _ _ _ Hi) as (t & Ht & _).
  pose proof Hk as Hk'. change (lit " ") with [" "%char] in Hk'.
  apply find_char_Some in Hk' as (pre & rest & HL & Hpre & Hlen).
  assert (length L = i + 2 + length t) as HlenL.
  { rewrite <- (take_drop i L), length_app, Ht, length_take, length_app.
    assert (i ≤ length L); [|simpl; lia].
    destruct (find_Some _ _ _ Hi) as (_ & _ & ?). done. }
  assert (length L = k + 1 + length rest) as HlenL'.
  { rewrite HL, length_app. simpl. lia. }
  destruct (decide (i = S k)) as [->|Hne].
  - (* the first space is the character before the colon *)
    assert (take (S k) L = pre ++ [" "%char]) as Htake.
    { rewrite HL, take_app, Hlen.
      replace (S k - k) with 1 by lia. rewrite take_ge by lia.
      by destruct rest. }
    simpl negb. cbv iota. rewrite Htake.
    rewrite (not_speaker_name_with " "%char); [|set_solver|done|done].
    rewrite (proj2 (Nat.ltb_lt k (S k))) by lia.
    assert (is_speaker_annotated (pre ++ [" "%char]) = Raise IndexError)
      as -> by (by rewrite is_speaker_annotated_eq).
    split; [intros [= <-]|intros [-> _]]; [|done].
    split_and!; [done..|]. by exists k.
  - split; [|intros (_ & _ & j & [= ->] & [= ->]); done].
    intros H. exfalso.
    destruct (negb (i =? 0)); [|done].
    destruct (is_speaker_name (take i L)); [done|].
    destruct (Nat.ltb_spec k i) as [Hlt|_]; [|done].
    assert (take i L = pre ++ " "%char :: take (i - S k) rest) as Htake.
    { rewrite HL, take_app, Hlen. rewrite (take_ge pre) by lia.
      replace (i - k) with (S (i - S k)) by lia. done. }
    rewrite Htake, (is_speaker_annotated_eq _ _ Hpre) in H.
    destruct (take (i - S k) rest) as [|o r] eqn:Er.
    { apply (f_equal length) in Er. rewrite length_take in Er.
      simpl in Er. lia. }
    simpl in H.
    destruct (last (pre ++ " "%char :: o :: r)) as [z|] eqn:Hz.
    2:{ apply last_None in Hz. by destruct pre. }
    destruct (truthy _); [|done].
    by destruct (is_speaker_name (take k L)).
Qed.

Lemma discard_iff_witness :
  parse_transcription_line (lit "(laughs) SMITH: Hello. (pause)")
  = Ok (None, None).
Proof.
  apply discard_iff. right. right. split; vm_compute; reflexivity.
Defined.

Lemma is_speaker_annotated_outcomes_witness :
  is_speaker_annotated (lit "SMITH ") = Raise IndexError.
Proof.
  apply (proj2 (is_speaker_annotated_outcomes (lit "SMITH "))).
  split; [done|]. exists (lit "SMITH"). split; [done|]. not_in_literal.
Defined.

Lemma parse_transcription_line_raises_iff_witness :
  parse_transcription_line (lit "Note : this") = Raise IndexError.
Proof.
  apply parse_transcription_line_raises_iff. split_and!; [done| |].
  - intros [H|[[H _]|[H _]]]; vm_compute in H; discriminate.
  - exists 4. split; vm_compute; reflexivity.
Defined.

(** X4. A line made of a valid speaker name, [": "] and words that do not
    end in whitespace, with any whitespace around it, is classified as
    that speaker saying those words; the words keep their leading
    whitespace and any further [": "] they hold. *)
Theorem speaker_line_roundtrip (ws1 name words ws2 : str) :
  is_speaker_name name = true →
  words ≠ [] →
  (∀ c, last words = Some c → Py_UNICODE_ISSPACE c = false) →
  Forall (fun c => Py_UNICODE_ISSPACE c = true) ws1 →
  Forall (fun c => Py_UNICODE_ISSPACE c = true) ws2 →
  parse_transcription_line (ws1 ++ (name ++ lit ": " ++ words) ++ ws2)
  = Ok (Some name, Some words).
Proof.
  intros Hname Hne Hlast H1 H2.
  set (s := name ++ lit ": " ++ words).
  assert (strip (ws1 ++ s ++ ws2) = s) as Hstrip.
  { apply strip_padded; [done..| |].
    - intros c Hc. apply upper_or_apostrophe_not_space.
      by apply (speaker_name_head name (lit ": " ++ words)).
    - intros c Hc. apply Hlast. unfold s in Hc.
      rewrite !last_app in Hc.
      destruct (last words) as [z|] eqn:Hz; [done|].
      by apply last_None in Hz. }
  rewrite parse_transcription_line_eq. cbv zeta. rewrite Hstrip.
  assert (bool_decide (s = [] ∨ wrapped s) = false) as ->
    by exact (not_action_speaker name _ Hname).
  assert (find (lit ": ") s = Some (length name)) as ->.
  { change (lit ": ") with (":"%char :: [" "%char]).
    apply (find_after_prefix ":"%char [" "%char] name words).
    by apply speaker_name_lacks. }
  assert (find (lit " ") s = Some (S (length name))) as ->.
  { change (lit " ") with [" "%char].
    change s with (name ++ ":"%char :: " "%char :: words).
    replace (name ++ ":"%char :: " "%char :: words)
      with ((name ++ [":"%char]) ++ " "%char :: words)
      by (by rewrite <- app_assoc).
    rewrite find_char; [by rewrite length_app, Nat.add_1_r|].
    apply not_elem_of_app. split; [by apply speaker_name_lacks|].
    not_in_literal. }
  assert (negb (length name =? 0) = true) as -> by (by destruct name).
  assert (take (length name) s = name) as -> by apply take_app_length.
  rewrite Hname.
  assert (drop (length name + 2) s = words) as ->; [|done].
  unfold s. by rewrite drop_app_add.
Qed.

Lemma speaker_line_roundtrip_witness :
  parse_transcription_line
    (lit "  " ++ (lit "O'BRIEN" ++ lit ": " ++ lit " Note: this.")
     ++ lit "  ")
  = Ok (Some (lit "O'BRIEN"), Some (lit " Note: this.")).
Proof.
  apply speaker_line_roundtrip.
  - vm_compute; reflexivity.
  - discriminate.
  - intros c Hc. vm_compute in Hc. injection Hc as <-. reflexivity.
  - repeat constructor.
  - repeat constructor.
Defined.

(** X5. A line made of a valid speaker name, a space, an annotation that
    opens with ['('] or ['['], closes with [')'] or [']'] and holds no
    colon, then [": "] and words that do not end in whitespace, is
    classified as the bare name saying those words: the annotation is
    dropped. *)
Theorem annotated_speaker_line_roundtrip
    (ws1 name : str) (o : ascii) (ann : str) (e : ascii) (words ws2 : str) :
  is_speaker_name name = true →
  o = "("%char ∨ o = "["%char →
  e = ")"%char ∨ e = "]"%char →
  (":"%char ∉ ann) →
  words ≠ [] →
  (∀ c, last words = Some c → Py_UNICODE_ISSPACE c = false) →
  Forall (fun c => Py_UNICODE_ISSPACE c = true) ws1 →
  Forall (fun c => Py_UNICODE_ISSPACE c = true) ws2 →
  parse_transcription_line
    (ws1 ++ (name ++ (" "%char :: o :: ann ++ [e]) ++ lit ": " ++ words)
     ++ ws2)
  = Ok (Some name, Some words).
Proof.
  intros Hname Ho He Hann Hne Hlast H1 H2.
  set (token := name ++ " "%char :: o :: ann ++ [e]).
  set (s := name ++ (" "%char :: o :: ann ++ [e]) ++ lit ": " ++ words).
  assert (s = token ++ lit ": " ++ words) as Hs
    by (unfold s, token; by rewrite <- app_assoc).
  assert (s = name ++ " "%char :: (o :: ann ++ [e]) ++ lit ": " ++ words)
    as Hs' by done.
  assert (strip (ws1 ++ s ++ ws2) = s) as Hstrip.
  { apply strip_padded; [done..| |].
    - intros c Hc. apply upper_or_apostrophe_not_space. unfold s in Hc.
      exact (speaker_name_head name _ c Hname Hc).
    - intros c Hc. apply Hlast. rewrite Hs in Hc.
      rewrite !last_app in Hc.
      destruct (last words) as [z|] eqn:Hz; [done|].
      by apply last_None in Hz. }
  rewrite parse_transcription_line_eq. cbv zeta. rewrite Hstrip.
  assert (bool_decide (s = [] ∨ wrapped s) = false) as ->
    by exact (not_action_speaker name _ Hname).
  assert (":"%char ∉ token) as Htoken.
  { unfold token. rewrite not_elem_of_app, !not_elem_of_cons, not_elem_of_app.
    split_and!; [by apply speaker_name_lacks|done| |done|].
    - by destruct Ho as [-> | ->].
    - rewrite not_elem_of_cons. split; [|apply not_elem_of_nil].
      by destruct He as [-> | ->]. }
  assert (find (lit ": ") s = Some (length token)) as ->.
  { rewrite Hs. change (lit ": ") with (":"%char :: [" "%char]).
    by apply (find_after_prefix ":"%char [" "%char] token words). }
  assert (find (lit " ") s = Some (length name)) as ->.
  { rewrite Hs'. change (lit " ") with [" "%char]. apply find_char.
    by apply speaker_name_lacks. }
  assert (negb (length token =? 0) = true) as ->
    by (unfold token; by destruct name).
  assert (take (length token) s = token) as ->
    by (rewrite Hs; apply take_app_length).
  assert (is_speaker_name token = false) as ->.
  { apply (not_speaker_name_with " "%char); [|done..].
    unfold token. apply elem_of_app. right. by left. }
  assert ((length name <? length token) = true) as ->.
  { apply Nat.ltb_lt. unfold token. rewrite length_app. simpl. lia. }
  unfold token at 1. rewrite is_speaker_annotated_eq
    by (by apply speaker_name_lacks).
  fold token. change (head (o :: ann ++ [e])) with (Some o). cbv iota.
  assert (last token = Some e) as ->.
  { unfold token.
    change (name ++ " "%char :: o :: ann ++ [e])
      with (name ++ (" "%char :: o :: ann) ++ [e]).
    by rewrite app_assoc, last_snoc. }
  assert (((o =? "(")%char || (o =? "[")%char)
          && ((e =? ")")%char || (e =? "]")%char) = true) as ->
    by (by destruct Ho as [-> | ->], He as [-> | ->]).
  simpl truthy. cbv iota.
  assert (take (length name) s = name) as -> by apply take_app_length.
  rewrite Hname.
  assert (drop (length token + 2) s = words) as ->; [|done].
  rewrite Hs. by rewrite drop_app_add.
Qed.

Lemma annotated_speaker_line_roundtrip_witness :
  parse_transcription_line
    (lit "" ++ (lit "SMITH" ++ (" "%char :: "["%char :: lit "to the crowd"
                                ++ [")"%char])
                ++ lit ": " ++ lit "Get back!")
     ++ lit (String (ascii_of_nat 10) EmptyString))
  = Ok (Some (lit "SMITH"), Some (lit "Get back!")).
Proof.
  apply annotated_speaker_line_roundtrip.
  - vm_compute; reflexivity.
  - by right.
  - by left.
  - not_in_literal.
  - discriminate.
  - intros c Hc. vm_compute in Hc. injection Hc as <-. reflexivity.
  - constructor.
  - repeat constructor.
Defined.

(** X6. A line that holds only a valid speaker name and a colon, whatever
    whitespace surrounds it, does not change the speaker: it is a
    continuation whose text is the name with its colon. *)
Theorem speaker_without_words (ws1 name ws2 : str) :
  is_speaker_name name = true →
  Forall (fun c => Py_UNICODE_ISSPACE c = true) ws1 →
  Forall (fun c => Py_UNICODE_ISSPACE c = true) ws2 →
  parse_transcription_line (ws1 ++ (name ++ lit ":") ++ ws2)
  = Ok (None, Some (name ++ lit ":")).
Proof.
  intros Hname H1 H2. set (s := name ++ lit ":").
  assert (strip (ws1 ++ s ++ ws2) = s) as Hstrip.
  { apply strip_padded; [done..| |].
    - intros c Hc. apply upper_or_apostrophe_not_space. unfold s in Hc.
      exact (speaker_name_head name _ c Hname Hc).
    - intros c Hc. unfold s in Hc. rewrite last_app in Hc. simpl in Hc.
      by injection Hc as <-. }
  rewrite parse_transcription_line_eq. cbv zeta. rewrite Hstrip.
  assert (bool_decide (s = [] ∨ wrapped s) = false) as ->
    by exact (not_action_speaker name _ Hname).
  assert (find (lit ": ") s = None) as ->; [|done].
  change (lit ": ") with (":"%char :: " "%char :: []).
  apply find_delimiter_at_end. by apply speaker_name_lacks.
Qed.

Lemma speaker_without_words_witness :
  parse_transcription_line
    (lit "" ++ (lit "SMITH" ++ lit ":") ++ lit " ")
  = Ok (None, Some (lit "SMITH" ++ lit ":")).
Proof.
  apply speaker_without_words.
  - vm_compute; reflexivity.
  - constructor.
  - repeat constructor.
Defined.



(** ** More facts about the bucket writer *)

Section MoreWriterFacts.
Implicit Types (st : state) (d : gmap str file) (bp sp who line text : str)
  (a : list (nat * option str * str)).

Lemma appended_nil (f : file) : appended [] f = f.
Proof. destruct f. unfold appended. simpl. by rewrite app_nil_r. Qed.

Lemma appended_appended (x y : str) (f : file) :
  appended y (appended x f) = appended (x ++ y) f.
Proof. unfold appended. simpl. by rewrite app_assoc. Qed.

Lemma bucket_text_cons sp n (owner : option str) text a :
  bucket_text sp ((n, owner, text) :: a)
  = (if decide (owner = Some sp) then text ++ crlf else [])
    ++ bucket_text sp a.
Proof. done. Qed.

Lemma speakers_cons_Some n who text a :
  speakers ((n, Some who, text) :: a) = who :: speakers a.
Proof. done. Qed.

Lemma speakers_cons_None n text a :
  speakers ((n, None, text) :: a) = speakers a.
Proof. done. Qed.

(** The handle of the current speaker. *)
Lemma current_speaker_handle bp st who :
  handles_ok bp st → output_file st = Some (bucket_file bp who) →
  file_handles st !! who = Some (bucket_file bp who).
Proof.
  intros [Ha Hb] Hout. destruct (Hb _ Hout) as [sp' Hsp'].
  destruct (Ha _ _ Hsp') as [Heq _]. apply bucket_file_inj in Heq.
  by subst.
Qed.

Lemma bucket_after_nil bp st sp :
  bucket_after bp st sp [] = disk st !! bucket_file bp sp.
Proof.
  unfold bucket_after. destruct (file_handles st !! sp); [|done].
  change (bucket_text sp []) with (@nil ascii).
  destruct (disk st !! bucket_file bp sp); simpl; [|done].
  by rewrite appended_nil.
Qed.

Lemma handle_after_nil bp st sp :
  handle_after bp st sp [] = file_handles st !! sp.
Proof. unfold handle_after. by destruct (file_handles st !! sp). Qed.

(** A line without a current speaker is reported and changes no bucket. *)
Lemma bucket_after_missed bp st sp n text a :
  output_file st = None →
  bucket_after bp (deliver text st) sp a
  = bucket_after bp st sp ((n, None, text) :: a).
Proof.
  intros Hout. unfold bucket_after, deliver. rewrite Hout.
  by rewrite bucket_text_cons, speakers_cons_None.
Qed.

Lemma handle_after_missed bp st sp n text a :
  output_file st = None →
  handle_after bp (deliver text st) sp a
  = handle_after bp st sp ((n, None, text) :: a).
Proof.
  intros Hout. unfold handle_after, deliver. rewrite Hout.
  by rewrite speakers_cons_None.
Qed.

(** A line delivered to the current speaker is appended to that
    speaker's bucket. *)
Lemma bucket_after_deliver bp st sp who n text a :
  handles_ok bp st → output_file st = Some (bucket_file bp who) →
  bucket_after bp (deliver text st) sp a
  = bucket_after bp st sp ((n, Some who, text) :: a).
Proof.
  intros Hok Hout.
  pose proof (current_speaker_handle _ _ _ Hok Hout) as Hwho.
  unfold bucket_after, deliver. rewrite Hout.
  rewrite bucket_text_cons, speakers_cons_Some. simpl.
  rewrite lookup_write.
  destruct (decide (who = sp)) as [->|Hne].
  - rewrite Hwho, !decide_True by done.
    destruct (disk st !! bucket_file bp sp); simpl; [|done].
    by rewrite appended_appended.
  - rewrite !decide_False;
      [|congruence|intros Heq; by apply bucket_file_inj in Heq].
    simpl. destruct (file_handles st !! sp); [done|].
    assert (bool_decide (sp ∈ who :: speakers a)
            = bool_decide (sp ∈ speakers a)) as ->; [|done].
    apply bool_decide_ext. rewrite elem_of_cons.
    split; [intros [?|?]; [congruence|done]|by right].
Qed.

Lemma handle_after_deliver bp st sp who n text a :
  handles_ok bp st → output_file st = Some (bucket_file bp who) →
  handle_after bp (deliver text st) sp a
  = handle_after bp st sp ((n, Some who, text) :: a).
Proof.
  intros Hok Hout.
  pose proof (current_speaker_handle _ _ _ Hok Hout) as Hwho.
  unfold handle_after, deliver. rewrite Hout.
  rewrite speakers_cons_Some. simpl.
  destruct (decide (who = sp)) as [->|Hne]; [by rewrite Hwho|].
  destruct (file_handles st !! sp); [done|].
  assert (bool_decide (sp ∈ who :: speakers a)
          = bool_decide (sp ∈ speakers a)) as ->; [|done].
  apply bool_decide_ext. rewrite elem_of_cons.
  split; [intros [?|?]; [congruence|done]|by right].
Qed.

(** Selecting the bucket of a speaker who then speaks creates it, empty,
    unless it is open already. *)
Lemma bucket_after_select bp st sp who a :
  who ∈ speakers a →
  bucket_after bp (select_bucket bp who st) sp a = bucket_after bp st sp a.
Proof.
  intros Hin. unfold bucket_after, select_bucket.
  case_bool_decide as E; simpl; [|done].
  unfold open_w. destruct (decide (who = sp)) as [->|Hne].
  - rewrite !lookup_insert_eq, E. simpl.
    by rewrite bool_decide_eq_true_2.
  - rewrite !lookup_insert_ne;
      [done|intros Heq; by apply bucket_file_inj in Heq|done].
Qed.

Lemma handle_after_select bp st sp who a :
  who ∈ speakers a →
  handle_after bp (select_bucket bp who st) sp a = handle_after bp st sp a.
Proof.
  intros Hin. unfold handle_after, select_bucket.
  case_bool_decide as E; simpl; [|done].
  destruct (decide (who = sp)) as [->|Hne].
  - rewrite lookup_insert_eq, E. by rewrite bool_decide_eq_true_2.
  - by rewrite lookup_insert_ne.
Qed.

Lemma select_bucket_stdout bp sp st :
  stdout (select_bucket bp sp st) = stdout st
  ∧ line_number (select_bucket bp sp st) = line_number st.
Proof. unfold select_bucket. by case_bool_decide. Qed.

Lemma deliver_stdout_Some text st f :
  output_file st = Some f → stdout (deliver text st) = stdout st.
Proof. intros H. unfold deliver. by rewrite H. Qed.

Lemma deliver_line_number text st :
  line_number (deliver text st) = line_number st.
Proof. unfold deliver. by destruct (output_file st). Qed.

Lemma deliver_output_file text st :
  output_file (deliver text st) = output_file st.
Proof. unfold deliver. by destruct (output_file st) eqn:E. Qed.

(** The loop, from any state it can be in, in terms of the attribution of
    the lines it is given. *)
Lemma for_lines_attribution bp lines st cur :
  handles_ok bp st →
  output_file st = bucket_file bp <$> cur →
  let r := final (for_lines bp lines st) in
  let a := attribution cur (line_number st) lines in
  (∀ sp, disk r !! bucket_file bp sp = bucket_after bp st sp a)
  ∧ (∀ sp, file_handles r !! sp = handle_after bp st sp a)
  ∧ stdout r = stdout st ++ warnings a.
Proof.
  revert st cur. induction lines as [|l lines IH]; intros st cur Hok Hout;
    cbv zeta.
  { simpl. split_and!; [intros sp; by rewrite bucket_after_nil
                       |intros sp; by rewrite handle_after_nil
                       |by rewrite app_nil_r]. }
  simpl for_lines. simpl attribution.
  pose proof (parse_view l) as V.
  set (st1 := set_line_number (S (line_number st)) st).
  destruct (parse_transcription_line l) as [[speaker words]|e] eqn:Hl.
  2:{ rewrite (loop_body_raise _ _ _ _ Hl). simpl.
      split_and!; [intros sp; by rewrite bucket_after_nil
                  |intros sp; by rewrite handle_after_nil
                  |by rewrite app_nil_r]. }
  inversion V as [|Hd|text Hne Ht|sp0 text Hname Hne Ht]; subst.
  - (* discarded *)
    rewrite (loop_body_discard _ _ _ Hl). exact (IH st1 cur Hok Hout).
  - (* continuation *)
    rewrite (loop_body_continuation _ _ _ _ Hl). fold st1.
    assert (handles_ok bp (deliver text st1)) as Hok'
      by (by apply handles_ok_deliver).
    assert (output_file (deliver text st1) = bucket_file bp <$> cur)
      as Hout' by (by rewrite deliver_output_file).
    destruct (IH (deliver text st1) cur Hok' Hout') as (Hd & Hh & Hs).
    rewrite deliver_line_number in Hd, Hh, Hs. simpl line_number in *.
    split_and!.
    + intros sp. rewrite Hd. destruct cur as [who|].
      * exact (bucket_after_deliver bp st1 sp who _ text _ Hok Hout).
      * exact (bucket_after_missed bp st1 sp _ text _ Hout).
    + intros sp. rewrite Hh. destruct cur as [who|].
      * exact (handle_after_deliver bp st1 sp who _ text _ Hok Hout).
      * exact (handle_after_missed bp st1 sp _ text _ Hout).
    + rewrite Hs. unfold deliver. destruct cur as [who|]; simpl in Hout.
      * change (output_file st1) with (output_file st). by rewrite Hout.
      * change (output_file st1) with (output_file st). rewrite Hout.
        simpl. by rewrite <- app_assoc.
  - (* a new speaker *)
    rewrite (loop_body_new_speaker _ _ _ _ _ Hl). fold st1.
    set (st2 := select_bucket bp sp0 st1).
    assert (handles_ok bp st2) as Hok2
      by (by apply handles_ok_select_bucket).
    assert (output_file st2 = Some (bucket_file bp sp0)) as Hout2.
    { apply select_bucket_output. intros h Hh.
      destruct Hok as [Ha _]. by destruct (Ha _ _ Hh). }
    assert (handles_ok bp (deliver text st2)) as Hok'
      by (by apply handles_ok_deliver).
    assert (output_file (deliver text st2) = bucket_file bp <$> Some sp0)
      as Hout' by (by rewrite deliver_output_file).
    destruct (IH (deliver text st2) (Some sp0) Hok' Hout') as (Hd & Hh & Hs).
    rewrite deliver_line_number in Hd, Hh, Hs.
    destruct (select_bucket_stdout bp sp0 st1) as [Hso Hn].
    fold st2 in Hso, Hn. rewrite Hn in Hd, Hh, Hs. simpl line_number in *.
    split_and!.
    + intros sp. rewrite Hd.
      rewrite (bucket_after_deliver bp st2 sp sp0 (S (line_number st)) text
                 _ Hok2 Hout2).
      apply (bucket_after_select bp st1). by left.
    + intros sp. rewrite Hh.
      rewrite (handle_after_deliver bp st2 sp sp0 (S (line_number st)) text
                 _ Hok2 Hout2).
      apply (handle_after_select bp st1). by left.
    + by rewrite Hs, (deliver_stdout_Some _ _ _ Hout2), Hso.
Qed.

End MoreWriterFacts.

Section MoreWriterFacts2.
Implicit Types (st : state) (bp sp line text : str)
  (a : list (nat * option str * str)).

(** The loop writes to bucket files only. *)
Lemma for_lines_frame bp lines st path :
  (∀ sp, path ≠ bucket_file bp sp) → handles_ok bp st →
  disk (final (for_lines bp lines st)) !! path = disk st !! path.
Proof.
  intros Hp Hok.
  apply (for_lines_preserves bp
           (fun s => handles_ok bp s ∧ disk s !! path = disk st !! path));
    [|by split].
  apply (loop_body_preserves bp
           (fun s => handles_ok bp s ∧ disk s !! path = disk st !! path)).
  - intros n s H. exact H.
  - intros sp s [H1 H2]. split; [by apply handles_ok_select_bucket|].
    rewrite <- H2. unfold select_bucket. case_bool_decide; simpl; [|done].
    unfold open_w. rewrite lookup_insert_ne; [done|]. intros E.
    by apply (Hp sp).
  - intros text s [H1 H2]. split; [by apply handles_ok_deliver|].
    rewrite <- H2. unfold deliver.
    destruct (output_file s) as [f|] eqn:Hf; simpl; [|done].
    rewrite lookup_write, decide_False; [done|]. intros ->.
    destruct H1 as [Ha Hb]. destruct (Hb _ Hf) as [sp Hsp].
    destruct (Ha _ _ Hsp) as [E _]. by apply (Hp sp).
Qed.

(** The counter of buckets grows with the handle table, and the loop does
    not count transcripts. *)
Lemma for_lines_counters bp lines st :
  files_created (final (for_lines bp lines st)) + size (file_handles st)
  = files_created st + size (file_handles (final (for_lines bp lines st)))
  ∧ files_processed (final (for_lines bp lines st)) = files_processed st.
Proof.
  apply (for_lines_preserves bp
           (fun s => files_created s + size (file_handles st)
                     = files_created st + size (file_handles s)
                     ∧ files_processed s = files_processed st));
    [|by split].
  apply (loop_body_preserves bp
           (fun s => files_created s + size (file_handles st)
                     = files_created st + size (file_handles s)
                     ∧ files_processed s = files_processed st)).
  - intros n s H. exact H.
  - intros sp s [H1 H2]. unfold select_bucket.
    case_bool_decide as E; simpl; [|by split]. split; [|done].
    rewrite map_size_insert_None by done. lia.
  - intros text s [H1 H2]. unfold deliver.
    by destruct (output_file s).
Qed.

(** A line attributed to no speaker is a continuation line, found at the
    line number recorded. *)
Lemma attribution_missed lines cur k n text :
  (n, None, text) ∈ attribution cur k lines →
  k < n ∧ ∃ l, lines !! (n - S k) = Some l
               ∧ parse_transcription_line l = Ok (None, Some text).
Proof.
  revert cur k. induction lines as [|l lines IH]; intros cur k; simpl.
  { by intros ?%elem_of_nil. }
  destruct (parse_transcription_line l) as [[[sp|] [w|]]|e] eqn:Hl.
  - rewrite elem_of_cons. intros [[=]|H].
    destruct (IH _ _ H) as (Hlt & l' & Hl' & Hp). split; [lia|].
    exists l'. split; [|done].
    replace (n - S k) with (S (n - S (S k))) by lia. done.
  - intros H. destruct (IH _ _ H) as (Hlt & l' & Hl' & Hp). split; [lia|].
    exists l'. split; [|done].
    replace (n - S k) with (S (n - S (S k))) by lia. done.
  - rewrite elem_of_cons. intros [[= -> _ ->]|H].
    + split; [lia|]. exists l. rewrite Nat.sub_diag. done.
    + destruct (IH _ _ H) as (Hlt & l' & Hl' & Hp). split; [lia|].
      exists l'. split; [|done].
      replace (n - S k) with (S (n - S (S k))) by lia. done.
  - intros H. destruct (IH _ _ H) as (Hlt & l' & Hl' & Hp). split; [lia|].
    exists l'. split; [|done].
    replace (n - S k) with (S (n - S (S k))) by lia. done.
  - by intros ?%elem_of_nil.
Qed.

End MoreWriterFacts2.

(** ** The bucket writer: further theorems *)



(** X9. A path that is not the bucket file of any speaker under the given
    bucket path is not touched by [process_transcription], however it
    ends. *)
Theorem other_files_untouched (bp fname : str) (lines : list str)
    (st0 : state) (path : str) :
  (∀ sp, path ≠ bucket_file bp sp) →
  disk (final (process_transcription bp fname lines st0)) !! path
  = disk st0 !! path.
Proof.
  intros Hp. unfold process_transcription.
  pose proof (for_lines_frame bp lines (enter fname st0) path Hp
                (handles_ok_enter bp fname st0)) as Hf.
  pose proof (handles_ok_loop bp lines _ (handles_ok_enter bp fname st0))
    as Hok.
  destruct (for_lines bp lines (enter fname st0)) as [r|e r]; simpl in *;
    [|done].
  destruct (close_all_lookup (file_handles r) (disk r) path)
    as (_ & _ & Hk).
  rewrite Hk; [done|]. intros sp Hsp. destruct Hok as [Ha _].
  destruct (Ha _ _ Hsp) as [E _]. by apply (Hp sp).
Qed.

Lemma other_files_untouched_witness :
  (∀ sp, lit "notes.md" ≠ bucket_file (lit "buckets/speech") sp)
  ∧ disk (final (process_transcription (lit "buckets/speech")
                   (lit "speech.txt") [lit "SMITH: Hello."; lit "a : b"]
                   initial)) !! lit "notes.md"
    = disk initial !! lit "notes.md".
Proof.
  assert (∀ sp, lit "notes.md" ≠ bucket_file (lit "buckets/speech") sp)
    as H by (intros sp E; vm_compute in E; discriminate).
  split; [exact H|]. exact (other_files_untouched _ _ _ _ _ H).
Defined.

(** X10. [files_created] grows by the number of distinct speakers to whom
    a line is attributed, whether or not processing completes, and
    [files_processed] grows by one exactly when it completes. *)
Theorem buckets_counted (bp fname : str) (lines : list str) (st0 : state) :
  let o := process_transcription bp fname lines st0 in
  let a := attribution None 0 lines in
  files_created (final o)
  = files_created st0 + size (list_to_set (speakers a) : gset str)
  ∧ files_processed (final o)
    = files_processed st0
      + match o with Done _ => 1 | Aborted _ _ => 0 end.
Proof.
  cbv zeta. unfold process_transcription.
  destruct (for_lines_attribution bp lines (enter fname st0) None
              (handles_ok_enter bp fname st0) eq_refl) as (_ & Hh & _).
  change (line_number (enter fname st0)) with 0 in Hh.
  destruct (for_lines_counters bp lines (enter fname st0)) as [Hc Hp].
  set (a := attribution None 0 lines) in *.
  set (r := final (for_lines bp lines (enter fname st0))) in *.
  assert (size (file_handles r)
          = size (list_to_set (speakers a) : gset str)) as Hsize.
  { rewrite <- size_dom. f_equal. apply set_eq. intros sp.
    rewrite elem_of_dom, elem_of_list_to_set, Hh.
    unfold handle_after. simpl. rewrite lookup_empty.
    case_bool_decide as Hin; split; [done|by eexists|by intros [? ?]|done]. }
  simpl in Hc, Hp. rewrite map_size_empty in Hc.
  unfold r in *.
  destruct (for_lines bp lines (enter fname st0)) as [r'|e r']; simpl in *;
    lia.
Qed.

(** X11. Besides the line that names the file, [process_transcription]
    prints exactly one warning for each line attributed to no speaker, in
    order; the number in a warning is the 1-based position of a line of
    the transcript that the classifier returns as a continuation with the
    text of the warning. *)
Theorem warnings_printed (bp fname : str) (lines : list str) (st0 : state) :
  let o := process_transcription bp fname lines st0 in
  let a := attribution None 0 lines in
  stdout (final o) = stdout st0 ++ Processing_file fname :: warnings a
  ∧ ∀ n text, Missed_speaker n text ∈ warnings a →
      0 < n ∧ ∃ l, lines !! (n - 1) = Some l
                   ∧ parse_transcription_line l = Ok (None, Some text).
Proof.
  cbv zeta. split.
  - unfold process_transcription.
    destruct (for_lines_attribution bp lines (enter fname st0) None
                (handles_ok_enter bp fname st0) eq_refl) as (_ & _ & Hs).
    change (line_number (enter fname st0)) with 0 in Hs.
    simpl stdout in Hs at 2. rewrite <- app_assoc in Hs. simpl in Hs.
    by destruct (for_lines bp lines (enter fname st0)).
  - intros n text Hin. unfold warnings in Hin.
    apply list_elem_of_omap in Hin as ([[n' who] text'] & Hin & Hx).
    simpl in Hx. destruct who; [done|]. injection Hx as -> ->.
    apply attribution_missed in Hin as (Hlt & l & Hl & Hp).
    split; [lia|]. exists l. split; [|done].
    by replace (n - 1) with (n - 1) by lia.
Qed.

(** ** Facts about the bucket path *)

Section PathFacts.
Implicit Types (s p a b stem ext name pre : str) (c : ascii).

Lemma rfind_None c s : rfind c s = None ↔ c ∉ s.
Proof.
  induction s as [|b s IH]; simpl.
  - split; [intros _; apply not_elem_of_nil|done].
  - rewrite not_elem_of_cons. destruct (rfind c s) as [i|].
    + split; [done|]. intros [_ H]. by apply IH in H.
    + destruct (Ascii.eqb_spec b c) as [->|Hne].
      * split; [done|]. by intros [? _].
      * split; [|done]. intros _. split; [congruence|]. by apply IH.
Qed.

Lemma rfind_last c stem ext :
  c ∉ ext → rfind c (stem ++ c :: ext) = Some (length stem).
Proof.
  intros Hc. induction stem as [|b stem IH]; simpl.
  - apply rfind_None in Hc. by rewrite Hc, Ascii.eqb_refl.
  - by rewrite IH.
Qed.

Lemma rfind_Some c s i :
  rfind c s = Some i →
  s = take i s ++ c :: drop (S i) s ∧ c ∉ drop (S i) s.
Proof.
  revert i. induction s as [|b s IH]; intros i; simpl; [done|].
  destruct (rfind c s) as [j|] eqn:E.
  - intros [= <-]. destruct (IH j eq_refl) as [Hs Hd]. simpl.
    split; [by rewrite <- Hs|done].
  - destruct (Ascii.eqb_spec b c) as [->|Hne]; [|done].
    intros [= <-]. simpl. rewrite drop_0. split; [done|].
    by apply rfind_None.
Qed.

(** The file name that [os.path.split] returns holds no slash. *)
Lemma os_path_split_tail p : "/"%char ∉ (os_path_split p).2.
Proof.
  unfold os_path_split. simpl.
  destruct (rfind "/" p) as [j|] eqn:E.
  - by destruct (rfind_Some _ _ _ E).
  - rewrite drop_0. by apply rfind_None.
Qed.

Lemma os_path_split_name pre name :
  pre = [] ∨ last pre = Some "/"%char → ("/"%char ∉ name) →
  (os_path_split (pre ++ name)).2 = name.
Proof.
  intros Hpre Hname. unfold os_path_split. simpl.
  destruct Hpre as [->|Hl].
  - simpl. apply rfind_None in Hname. by rewrite Hname, drop_0.
  - apply last_Some in Hl as [pre' ->]. rewrite <- app_assoc. simpl.
    rewrite (rfind_last _ _ _ Hname).
    replace (S (length pre')) with (length (pre' ++ ["/"%char]))
      by (rewrite length_app; simpl; lia).
    replace (pre' ++ "/"%char :: name) with ((pre' ++ ["/"%char]) ++ name)
      by (by rewrite <- app_assoc).
    apply drop_app_length.
Qed.

Lemma startswith_slash s :
  startswith (lit "/") s = bool_decide (head s = Some "/"%char).
Proof.
  change (lit "/") with ["/"%char]. destruct s as [|b s]; [done|].
  change (startswith ["/"%char] (b :: s)) with (Ascii.eqb "/" b && true).
  change (head (b :: s)) with (Some b). rewrite andb_true_r.
  destruct (Ascii.eqb_spec "/" b) as [<-|Hne].
  - by rewrite bool_decide_eq_true_2.
  - rewrite bool_decide_eq_false_2; [done|]. congruence.
Qed.

(** Joining, then appending what does not start with a slash. *)
Lemma os_path_join_app a b s :
  head s ≠ Some "/"%char →
  os_path_join a b ++ s = os_path_join a (b ++ s).
Proof.
  intros Hs. unfold os_path_join. rewrite !startswith_slash.
  destruct b as [|c b]; simpl.
  - rewrite (bool_decide_eq_false_2 (head s = _)) by done.
    destruct (bool_decide (a = []) || bool_decide (last a = Some "/"%char)).
    + by rewrite app_nil_r.
    + rewrite <- app_assoc. done.
  - case_bool_decide; [done|].
    destruct (bool_decide (a = []) || bool_decide (last a = Some "/"%char));
      by rewrite <- !app_assoc.
Qed.

(** The join of a directory and a name without slash is a direct child of
    the directory. *)
Lemma os_path_join_child a name :
  ("/"%char ∉ name) →
  os_path_join a name
  = (if bool_decide (a = []) || bool_decide (last a = Some "/"%char)
     then a else a ++ lit "/") ++ name.
Proof.
  intros Hn. unfold os_path_join. rewrite startswith_slash.
  rewrite bool_decide_eq_false_2.
  - destruct (bool_decide (a = []) || bool_decide (last a = Some "/"%char));
      [done|by rewrite <- app_assoc].
  - intros Hh. apply Hn. by apply head_Some_elem_of.
Qed.

Lemma bucket_path_of_stem output_dir output_prefix stem ext :
  ("."%char ∉ ext) →
  bucket_path_of output_dir output_prefix (stem ++ "."%char :: ext)
  = Ok (os_path_join output_dir (output_prefix ++ stem)).
Proof.
  intros Hext. unfold bucket_path_of, rindex.
  rewrite (rfind_last _ _ _ Hext). simpl. by rewrite take_app_length.
Qed.

Lemma bucket_path_of_Ok output_dir output_prefix filename bp :
  bucket_path_of output_dir output_prefix filename = Ok bp →
  ∃ stem ext, filename = stem ++ "."%char :: ext ∧ ("."%char ∉ ext)
              ∧ bp = os_path_join output_dir (output_prefix ++ stem).
Proof.
  unfold bucket_path_of, rindex.
  destruct (rfind "." filename) as [i|] eqn:E; [|done]. simpl.
  intros [= <-]. destruct (rfind_Some _ _ _ E) as [Hs Hd].
  by exists (take i filename), (drop (S i) filename).
Qed.

(** The loop raises [IndexError] only. *)
Lemma is_speaker_annotated_raise s e :
  is_speaker_annotated s = Raise e → e = IndexError.
Proof.
  destruct (decide (" "%char ∈ s)) as [Hin|Hout].
  - apply list_elem_of_split_l in Hin as (pre & rest & -> & Hpre).
    rewrite (is_speaker_annotated_eq _ _ Hpre).
    destruct (head rest); [|congruence].
    destruct (last (pre ++ " "%char :: rest)); [done|congruence].
  - by rewrite (is_speaker_annotated_no_space _ Hout).
Qed.

Lemma parse_transcription_line_raise line e :
  parse_transcription_line line = Raise e → e = IndexError.
Proof.
  rewrite parse_transcription_line_eq. cbv zeta.
  case_bool_decide as Hact; [done|].
  destruct (find (lit ": ") (strip line)) as [i|] eqn:Hi; [|done].
  destruct (find_space_of_delimiter _ _ Hi) as (k & -> & _).
  destruct (negb (i =? 0)); [|done].
  destruct (is_speaker_name (take i (strip line))); [done|].
  destruct (k <? i); [|done].
  destruct (is_speaker_annotated (take i (strip line))) as [a|e'] eqn:Ea.
  - destruct (truthy a); [|done].
    by destruct (is_speaker_name (take k (strip line))).
  - intros [= <-]. by apply is_speaker_annotated_raise in Ea.
Qed.

Lemma for_lines_raise bp lines st e st' :
  for_lines bp lines st = Aborted e st' → e = IndexError.
Proof.
  revert st. induction lines as [|l lines IH]; intros st; simpl; [done|].
  destruct (loop_body bp l st) as [s|e' s] eqn:El; [apply IH|].
  intros [= <- <-]. unfold loop_body in El.
  destruct (parse_transcription_line l) as [[sp [[|c w]|]]|e''] eqn:Hl;
    try done.
  injection El as <- _. by apply parse_transcription_line_raise in Hl.
Qed.

Lemma process_transcription_raise bp fname lines st e st' :
  process_transcription bp fname lines st = Aborted e st' → e = IndexError.
Proof.
  unfold process_transcription.
  destruct (for_lines bp lines (enter fname st)) as [s|e' s] eqn:E;
    [done|].
  intros [= <- <-]. by apply for_lines_raise in E.
Qed.

(** The method, for a path whose file name is [stem.ext]. *)
Lemma process_transcription_stem output_dir output_prefix pre stem ext
    (lines : list str) (st : state) :
  pre = [] ∨ last pre = Some "/"%char →
  ("/"%char ∉ stem) → ("/"%char ∉ ext) → ("."%char ∉ ext) →
  TranscriptionParser_process_transcription output_dir output_prefix
    (pre ++ stem ++ "."%char :: ext) lines st
  = process_transcription (os_path_join output_dir (output_prefix ++ stem))
      (stem ++ "."%char :: ext) lines st.
Proof.
  intros Hpre Hstem Hext Hdot.
  unfold TranscriptionParser_process_transcription.
  rewrite os_path_split_name; [|done|].
  - by rewrite bucket_path_of_stem.
  - rewrite not_elem_of_app, not_elem_of_cons. by split_and!.
Qed.

End PathFacts.

(** ** The bucket path: theorems *)

(** X12. [process_transcription] raises [ValueError] exactly when the file
    name of the transcript (what follows the last slash of its path) holds
    no dot; it has then printed the line that names the file and done
    nothing else: no bucket is opened and the transcript is not counted. *)
Theorem process_transcription_without_extension
    (output_dir output_prefix filepath : str) (lines : list str)
    (st : state) :
  let filename := (os_path_split filepath).2 in
  let o := TranscriptionParser_process_transcription output_dir output_prefix
             filepath lines st in
  (("."%char ∉ filename) →
   o = Aborted ValueError (print (Processing_file filename) st))
  ∧ (∀ st', o = Aborted ValueError st' → "."%char ∉ filename).
Proof.
  cbv zeta. unfold TranscriptionParser_process_transcription. split.
  - intros Hdot. unfold bucket_path_of, rindex.
    apply rfind_None in Hdot. by rewrite Hdot.
  - intros st'. unfold bucket_path_of, rindex.
    destruct (rfind "." (os_path_split filepath).2) as [i|] eqn:E.
    + simpl. intros H. by apply process_transcription_raise in H.
    + intros _. by apply rfind_None.
Qed.

Lemma process_transcription_without_extension_witness :
  ("."%char ∉ (os_path_split (lit "transcripts/README")).2)
  ∧ TranscriptionParser_process_transcription (lit "buckets") (lit "")
      (lit "transcripts/README") [lit "SMITH: Hello."] initial
    = Aborted ValueError
        (print (Processing_file (os_path_split (lit "transcripts/README")).2)
           initial).
Proof.
  assert ("."%char ∉ (os_path_split (lit "transcripts/README")).2) as H
    by not_in_literal.
  split; [exact H|].
  exact (proj1 (process_transcription_without_extension (lit "buckets")
                  (lit "") (lit "transcripts/README") [lit "SMITH: Hello."]
                  initial) H).
Defined.

(** X13. For a transcript whose file name is [stem.ext], with no dot in
    [ext], [process_transcription] works on the bucket path
    [join(output_dir, output_prefix + stem)]: the buckets are named
    [<that path>_<SPEAKER>.txt]. Only the last extension is removed, and
    neither it nor the directory of the transcript plays a part. *)
Theorem bucket_path_uses_stem (output_dir output_prefix pre stem ext : str)
    (lines : list str) (st : state) :
  pre = [] ∨ last pre = Some "/"%char →
  ("/"%char ∉ stem) → ("/"%char ∉ ext) → ("."%char ∉ ext) →
  TranscriptionParser_process_transcription output_dir output_prefix
    (pre ++ stem ++ "."%char :: ext) lines st
  = process_transcription (os_path_join output_dir (output_prefix ++ stem))
      (stem ++ "."%char :: ext) lines st.
Proof. apply process_transcription_stem. Qed.

Lemma bucket_path_uses_stem_witness :
  TranscriptionParser_process_transcription (lit "buckets") (lit "p-")
    (lit "transcripts/" ++ lit "a.b" ++ "."%char :: lit "txt")
    [lit "SMITH: Hello."] initial
  = process_transcription (os_path_join (lit "buckets") (lit "p-" ++ lit "a.b"))
      (lit "a.b" ++ "."%char :: lit "txt") [lit "SMITH: Hello."] initial.
Proof.
  apply bucket_path_uses_stem.
  - right. vm_compute. reflexivity.
  - not_in_literal.
  - not_in_literal.
  - not_in_literal.
Defined.

(** X14. When the output prefix holds no slash, every bucket file is a
    direct child of the output directory: its path is the output
    directory, a slash unless the directory is empty or ends with one,
    and a name without slash. *)
Theorem bucket_files_in_output_dir
    (output_dir output_prefix filepath bp sp : str) :
  ("/"%char ∉ output_prefix) →
  bucket_path_of output_dir output_prefix (os_path_split filepath).2
  = Ok bp →
  is_speaker_name sp = true →
  ∃ name,
    ("/"%char ∉ name)
    ∧ bucket_file bp sp
      = (if bool_decide (output_dir = [])
            || bool_decide (last output_dir = Some "/"%char)
         then output_dir else output_dir ++ lit "/") ++ name.
Proof.
  intros Hprefix Hbp Hsp.
  apply bucket_path_of_Ok in Hbp as (stem & ext & Hname & _ & ->).
  pose proof (os_path_split_tail filepath) as Htail. rewrite Hname in Htail.
  apply not_elem_of_app in Htail as [Hstem _].
  exists ((output_prefix ++ stem) ++ lit "_" ++ sp ++ lit ".txt").
  assert ("/"%char ∉ (output_prefix ++ stem) ++ lit "_" ++ sp ++ lit ".txt")
    as Hn.
  { rewrite !not_elem_of_app. split_and!; [done..| | |].
    - not_in_literal.
    - by apply speaker_name_lacks.
    - not_in_literal. }
  split; [done|]. unfold bucket_file.
  rewrite os_path_join_app by done. by apply os_path_join_child.
Qed.

Lemma bucket_files_in_output_dir_witness :
  ∃ name,
    ("/"%char ∉ name)
    ∧ bucket_file (lit "out/p-speech") (lit "O'BRIEN")
      = (if bool_decide (lit "out" = [])
            || bool_decide (last (lit "out") = Some "/"%char)
         then lit "out" else lit "out" ++ lit "/") ++ name.
Proof.
  apply (bucket_files_in_output_dir (lit "out") (lit "p-")
           (lit "../../etc/speech.txt")).
  - not_in_literal.
  - vm_compute. reflexivity.
  - vm_compute. reflexivity.
Defined.



Example os_path_split_examples :
  os_path_split (lit "transcripts/speech.txt")
  = (lit "transcripts", lit "speech.txt")
  ∧ os_path_split (lit "speech.txt") = (lit "", lit "speech.txt")
  ∧ os_path_split (lit "/speech.txt") = (lit "/", lit "speech.txt")
  ∧ os_path_split (lit "a//b/") = (lit "a//b", lit "")
  ∧ os_path_join (lit "out") (lit "x") = lit "out/x"
  ∧ os_path_join (lit "out/") (lit "x") = lit "out/x"
  ∧ os_path_join (lit "") (lit "buckets") = lit "buckets"
  ∧ os_path_join (lit "out") (lit "/x") = lit "/x"
  ∧ os_path_join (lit "out") (lit "") = lit "out/"
  ∧ bucket_path_of (lit "out") (lit "p-") (lit "a.b.txt")
    = Ok (lit "out/p-a.b")
  ∧ bucket_path_of (lit "out") (lit "") (lit "README")
    = Raise ValueError.
Proof. split_and!; vm_compute; reflexivity. Qed.
